(** * GitHub Actions monitor: run detection, deduplication and dispatch

    A shallow embedding of the core of [github_actions_monitor.py]
    (class [GitHubActionsMonitor]): the freshness filter
    [_get_new_successful_runs], the command resolver and dispatcher
    [_execute_commands], the command runner [_execute_single_command],
    the timeout table [_get_default_timeout], the persisted state
    ([_load_state], [_save_state]) and the retention pass
    [_cleanup_old_executed_runs].

    Conventions.
    - Python [str] is [string]; the command texts, branch names and run
      keys handled here are ASCII.
    - Python [int] is [Z]; a [datetime] is the number of microseconds
      since the epoch (the resolution of [datetime]), so that
      [timedelta.total_seconds() > 300] is [diff > 300 * 1000000].
    - A Python [set] of run keys is a [gset string]; a [dict] that is only
      read by key is a [gmap].
    - [None] / a missing dictionary key is [None] of [option].
    - Log calls change no control flow and are left out, except where a
      definition says otherwise. *)

From Stdlib Require Import ZArith String Ascii List Bool Lia.
From stdpp Require Import base option list gmap strings pretty.

Local Open Scope Z_scope.
Local Open Scope string_scope.

(** ** Strings: the [str] methods the monitor uses *)

Module PyStr.

(** [c.lower()] on one ASCII character. *)
Definition lower_ascii (c : ascii) : ascii :=
  let n := nat_of_ascii c in
  if (Nat.leb 65 n && Nat.leb n 90)%bool then ascii_of_nat (n + 32) else c.

(** [s.lower()]. *)
Fixpoint lower (s : string) : string :=
  match s with
  | EmptyString => EmptyString
  | String c t => String (lower_ascii c) (lower t)
  end.

(** [kw in s] for strings: [kw] occurs in [s] as a substring. *)
Fixpoint contains (kw s : string) : bool :=
  String.prefix kw s ||
  match s with
  | EmptyString => false
  | String _ t => contains kw t
  end.

(** [any(kw in s for kw in kws)]. *)
Definition contains_any (kws : list string) (s : string) : bool :=
  existsb (fun kw => contains kw s) kws.

(** [s.split(sep)] for a one-character separator; [acc] holds the
    characters of the current field, in reverse. *)
Fixpoint split_aux (sep : ascii) (acc : string) (s : string) : list string :=
  match s with
  | EmptyString => [String.rev acc]
  | String c t =>
      if Ascii.eqb c sep
      then String.rev acc :: split_aux sep EmptyString t
      else split_aux sep (String c acc) t
  end.

Definition split (sep : ascii) (s : string) : list string :=
  split_aux sep EmptyString s.

Definition is_digit (c : ascii) : bool :=
  let n := nat_of_ascii c in (Nat.leb 48 n && Nat.leb n 57)%bool.

Definition digit_val (c : ascii) : Z := Z.of_nat (nat_of_ascii c - 48).

(** The characters [int()] skips around a number: tab, line feed,
    vertical tab, form feed, carriage return and space. The separators
    0x1C to 0x1F are not among them: [int()] raises on them. *)
Definition is_space (c : ascii) : bool :=
  let n := nat_of_ascii c in
  ((Nat.leb 9 n && Nat.leb n 13) || Nat.eqb n 32)%bool.

Fixpoint lstrip (s : string) : string :=
  match s with
  | String c t => if is_space c then lstrip t else s
  | EmptyString => EmptyString
  end.

Definition strip (s : string) : string :=
  String.rev (lstrip (String.rev (lstrip s))).

(** Digits of an integer literal, most significant first; a single
    underscore may separate two digits. [prev] tells whether the
    previous character was a digit. *)
Fixpoint digits_aux (prev : bool) (acc : Z) (s : string) : option Z :=
  match s with
  | EmptyString => if prev then Some acc else None
  | String c t =>
      if is_digit c then digits_aux true (10 * acc + digit_val c) t
      else if (Ascii.eqb c "_" && prev)%bool then digits_aux false acc t
      else None
  end.

(** [int(s)] on a string, base 10: [None] stands for [ValueError]. The
    limit of 4300 digits that [int()] puts on its argument is not part of
    this function; statements that depend on it bound the length of the
    text. *)
Definition int (s : string) : option Z :=
  match strip s with
  | String "-" t => Z.opp <$> digits_aux false 0 t
  | String "+" t => digits_aux false 0 t
  | t => digits_aux false 0 t
  end.

End PyStr.

(** ** The run source: what the GitHub API hands over *)

(** A workflow run, with the attributes the monitor reads. *)
Record workflow_run := WorkflowRun {
  run_id : Z;
  run_number : Z;
  conclusion : option string;
  head_branch : option string;
  head_sha : option string;
  display_title : option string;
  updated_at : option Z
}.

(** A workflow: its id and name. *)
Record workflow := Workflow {
  wf_id : Z;
  wf_name : string
}.

(** ** Configuration *)

(** One entry of [commands.definitions] (or of the legacy
    [commands.on_success] list): the keys [_execute_commands] reads. *)
Record cmd_config := CmdConfig {
  cc_description : option string;
  cc_name : option string;
  cc_command : option string;
  cc_working_directory : option string;
  (* ['timeout']: [None] when the key is missing, [Some None] when it is
     there with a null value, [Some (Some t)] for a number *)
  cc_timeout : option (option Z)
}.

(** The value of [logging.commands] in the configuration, read with
    [self.config.get('logging', {}).get('commands', {})]: the key may be
    missing, hold a mapping, or hold something that is no mapping (a null
    value, a text, a list), on which the [.get] that follows raises
    [AttributeError]; a [logging] entry that is itself no mapping raises
    in the same way and is [LogInvalid] too. The entries of the mapping
    only choose what is logged. *)
Inductive commands_logging :=
| LogAbsent
| LogMapping
| LogInvalid.

Record config := Config {
  (* monitoring.branches *)
  branches_config : list string;
  (* commands.execution_map *)
  execution_map : gmap string (gmap string (list string));
  (* commands.definitions *)
  command_definitions : gmap string cmd_config;
  (* commands.on_success *)
  on_success : list cmd_config;
  (* logging.commands *)
  logging_commands : commands_logging
}.

(** ** The dedup state *)

(** [state_data['executed_runs']]: a set, or the list of an older state
    file. *)
Inductive executed_val :=
| ExecSet (s : gset string)
| ExecList (l : list string).

(** [self.state_data], a dict with the keys ['last_checked_runs'] and
    ['executed_runs']; [None] is a missing key. *)
Record state_data := StateData {
  last_checked_runs : option (list (string * string));
  executed_runs : option executed_val
}.

(** [set(executed_runs)] where the value may still be a list. *)
Definition as_set (v : executed_val) : gset string :=
  match v with
  | ExecSet s => s
  | ExecList l => list_to_set l
  end.

(** [self.state_data.get('executed_runs', set())], converted to a set. *)
Definition executed_set (st : state_data) : gset string :=
  match executed_runs st with
  | Some v => as_set v
  | None => ∅
  end.

(** [f"{repo_name}:{workflow.id}:{run.id}"] *)
Definition run_key (repo_name : string) (wf : workflow) (run : workflow_run) : string :=
  repo_name +:+ ":" +:+ pretty (wf_id wf) +:+ ":" +:+ pretty (run_id run).

(** ** Freshness filter *)

(** [_should_monitor_branch]: an empty allow-list monitors every branch. *)
Definition _should_monitor_branch (cfg : config) (branch : option string) : bool :=
  match branches_config cfg with
  | [] => true
  | bs => match branch with
          | Some b => bool_decide (b ∈ bs)
          | None => false
          end
  end.

(** The window of five minutes, in microseconds. *)
Definition freshness_window : Z := 300 * 1000000.

(** The body of the loop of [_get_new_successful_runs]: does [run] pass
    the three checks? *)
Definition is_new_run (cfg : config) (executed : gset string) (current_time : Z)
    (repo_name : string) (wf : workflow) (run : workflow_run) : bool :=
  if bool_decide (run_key repo_name wf run ∈ executed) then false
  else if negb (_should_monitor_branch cfg (head_branch run)) then false
  else match updated_at run with
       | Some t => if Z.ltb freshness_window (current_time - t) then false else true
       | None => true
       end.

(** [_get_new_successful_runs]. [runs] is what
    [workflow.get_runs(status='completed')] yields, [None] when the call
    raises: the [except] clause then returns the empty list. *)
Definition _get_new_successful_runs (cfg : config) (st : state_data)
    (current_time : Z) (repo_name : string) (wf : workflow)
    (runs : option (list workflow_run)) : list workflow_run :=
  match runs with
  | None => []
  | Some runs =>
      let successful_runs :=
        filter (fun run => conclusion run = Some "success") runs in
      let executed := executed_set st in
      filter (fun run => is_new_run cfg executed current_time repo_name wf run = true)
             successful_runs
  end.

(** ** Command resolver *)

(** Truth value of a list of command names that may be [None]:
    [None] and the empty list are both false. *)
Definition truthy_commands (repo_commands : option (list string)) : bool :=
  match repo_commands with
  | Some (_ :: _) => true
  | _ => false
  end.

(** The lookup cascade of [_execute_commands] over [execution_map]:
    the value of [repo_commands] when the cascade is done. *)
Definition resolve_repo_commands (em : gmap string (gmap string (list string)))
    (repo_name branch_name : string) : option (list string) :=
  let repo_commands :=
    match em !! repo_name with
    | Some repo_config =>
        match repo_config !! branch_name with
        | Some cmds => Some cmds
        | None =>
            match repo_config !! "*" with
            | Some cmds => Some cmds
            | None => None
            end
        end
    | None => None
    end in
  if negb (truthy_commands repo_commands) then
    match em !! "*" with
    | Some default_config =>
        match default_config !! branch_name with
        | Some cmds => Some cmds
        | None =>
            match default_config !! "*" with
            | Some cmds => Some cmds
            | None => repo_commands
            end
        end
    | None => repo_commands
    end
  else repo_commands.

(** *** The resolution order in the words of the specification

    The four entries of the execution map that are consulted for a
    repository and a branch, and "first match wins" read literally: the
    first of the four that exists is the result, whatever list it holds. *)

(** [execution_map[repo][branch]], [None] when either key is missing. *)
Definition entry (em : gmap string (gmap string (list string)))
    (repo branch : string) : option (list string) :=
  em !! repo ≫= (fun branches => branches !! branch).

(** The first existing entry under the repository's own key. *)
Definition repo_candidate (em : gmap string (gmap string (list string)))
    (repo_name branch_name : string) : option (list string) :=
  match entry em repo_name branch_name with
  | Some cmds => Some cmds
  | None => entry em repo_name "*"
  end.

(** The first existing entry under the wildcard repository ["*"]. *)
Definition default_candidate (em : gmap string (gmap string (list string)))
    (branch_name : string) : option (list string) :=
  match entry em "*" branch_name with
  | Some cmds => Some cmds
  | None => entry em "*" "*"
  end.

(** First match wins, no merging. *)
Definition first_match (em : gmap string (gmap string (list string)))
    (repo_name branch_name : string) : option (list string) :=
  match repo_candidate em repo_name branch_name with
  | Some cmds => Some cmds
  | None => default_candidate em branch_name
  end.

(** [workflow_run.head_branch or 'unknown'] *)
Definition branch_or_unknown (branch : option string) : string :=
  match branch with
  | Some (String c t) => String c t
  | _ => "unknown"
  end.

(** Names to definitions: a name without a definition is skipped, a found
    definition is copied with its ['name'] set. *)
Fixpoint lookup_definitions (defs : gmap string cmd_config) (names : list string)
    : list cmd_config :=
  match names with
  | [] => []
  | cmd_name :: rest =>
      match defs !! cmd_name with
      | Some cmd_def =>
          CmdConfig (cc_description cmd_def) (Some cmd_name) (cc_command cmd_def)
                    (cc_working_directory cmd_def) (cc_timeout cmd_def)
          :: lookup_definitions defs rest
      | None => lookup_definitions defs rest
      end
  end.

(** [commands_to_execute], as [_execute_commands] computes it before it
    runs anything. *)
Definition commands_to_execute (cfg : config) (repo_name : string)
    (run : workflow_run) : list cmd_config :=
  if bool_decide (execution_map cfg ≠ ∅) then
    let branch_name := branch_or_unknown (head_branch run) in
    match resolve_repo_commands (execution_map cfg) repo_name branch_name with
    | Some (n :: ns) => lookup_definitions (command_definitions cfg) (n :: ns)
    | _ => []
    end
  else on_success cfg.

(** ** Timeouts *)

(** [_get_default_timeout] *)
Definition _get_default_timeout (command : string) : Z :=
  let command_lower := PyStr.lower command in
  if PyStr.contains_any ["curl"; "wget"; "http"] command_lower then 60
  else if PyStr.contains "kubectl" command_lower then 120
  else if PyStr.contains_any ["git"; "clone"; "pull"; "push"] command_lower then 180
  else if PyStr.contains_any ["docker"; "podman"] command_lower then 300
  else 120.

(** [cmd_config.get('timeout', self._get_default_timeout(command))] *)
Definition effective_timeout (cmd : cmd_config) (command : string) : option Z :=
  match cc_timeout cmd with
  | Some t => t
  | None => Some (_get_default_timeout command)
  end.

(** [kw in s] as a proposition: [s] is [kw] with something before and
    something after it. *)
Definition occurs_in (kw s : string) : Prop :=
  ∃ pre post, s = pre +:+ kw +:+ post.

(** The lower-cased command text holds one of the keywords. *)
Definition mentions (kws : list string) (command : string) : Prop :=
  ∃ kw, kw ∈ kws ∧ occurs_in kw (PyStr.lower command).

(** ** Command runner *)

(** The exceptions [subprocess.run] raises; all derive from [Exception].
    [ExcOther] is any class other than the three named ones. *)
Inductive exn :=
| TimeoutExpired (stdout stderr : option string)
| PermissionError
| FileNotFoundError
| ExcOther (class_name : string).

(** A call either returns or raises. *)
Inductive outcome (A : Type) :=
| Returned (a : A)
| Raised (e : exn).
Arguments Returned {A} a.
Arguments Raised {A} e.

(** What the runner hands back: the [CompletedProcess] of
    [subprocess.run], or the stand-in object of class [TimeoutResult]. *)
Inductive run_result :=
| CompletedProcess (returncode : Z) (stdout stderr : string)
| TimeoutResult (returncode : Z) (stdout stderr : string).

Definition returncode_of (r : run_result) : Z :=
  match r with
  | CompletedProcess rc _ _ => rc
  | TimeoutResult rc _ _ => rc
  end.

Definition stdout_of (r : run_result) : string :=
  match r with
  | CompletedProcess _ out _ => out
  | TimeoutResult _ out _ => out
  end.

(** The process environment the monitor runs in. [subprocess_run command
    cwd env timeout] is [subprocess.run(command, shell=True, cwd=...,
    env=..., capture_output=True, text=True, timeout=..., check=False)]:
    it returns a return code with the captured output, or raises. A
    timeout of [None] is no time limit. *)
Record world := World {
  os_environ : gmap string string;
  os_getcwd : string;
  commit_author : string -> workflow_run -> string;
  subprocess_run :
    string -> string -> gmap string string -> option Z ->
    outcome (Z * string * string)
}.

(** [e.stdout if hasattr(e, 'stdout') and e.stdout else ""] *)
Definition partial_stdout (out : option string) : string :=
  match out with
  | Some (String c t) => String c t
  | _ => ""
  end.

(** [self.config.get('logging', {}).get('commands', {})] followed by a
    [.get] on the result, as [_execute_single_command] and
    [_log_command_details] start: it raises when [logging.commands] holds
    something that is no mapping. *)
Definition read_command_logging (cfg : config) : outcome unit :=
  match logging_commands cfg with
  | LogAbsent => Returned tt
  | LogMapping => Returned tt
  | LogInvalid => Raised (ExcOther "AttributeError")
  end.

(** [f"{timeout}"] *)
Definition format_timeout (timeout : option Z) : string :=
  match timeout with
  | Some t => pretty t
  | None => "None"
  end.

(** The [try] statement of [_execute_single_command]: the call of
    [subprocess.run] and the four [except] clauses, in their order. *)
Definition try_subprocess_run (w : world) (command working_dir : string)
    (env_vars : gmap string string) (timeout : option Z)
    : outcome (option run_result) :=
  match subprocess_run w command working_dir env_vars timeout with
  | Returned (rc, out, err) => Returned (Some (CompletedProcess rc out err))
  | Raised (TimeoutExpired out _) =>
      Returned (Some (TimeoutResult (-1) (partial_stdout out)
                        ("Command timed out after " +:+ format_timeout timeout
                         +:+ " seconds")))
  | Raised PermissionError => Returned None
  | Raised FileNotFoundError => Returned None
  | Raised (ExcOther _) => Returned None
  end.

(** [_execute_single_command]: the reading of the logging configuration,
    which stands before the [try] and raises to the caller, then the
    [try] statement. *)
Definition _execute_single_command (cfg : config) (w : world)
    (command working_dir : string) (env_vars : gmap string string)
    (timeout : option Z) : outcome (option run_result) :=
  match read_command_logging cfg with
  | Raised e => Raised e
  | Returned _ => try_subprocess_run w command working_dir env_vars timeout
  end.

(** [_log_command_details]: it reads the logging configuration and then
    only logs; what its checks of the working directory and of the user
    raise is caught inside it. *)
Definition _log_command_details (cfg : config) : outcome unit :=
  read_command_logging cfg.

(** *** The outcome classes in the words of the specification

    The six classes a command outcome is said to fall into, and the class
    of what [subprocess.run] actually did. *)
Inductive outcome_class :=
| Success
| NonZeroExit
| TimedOut
| PermissionDenied
| NotFound
| Unexpected.

Definition class_of_call (r : outcome (Z * string * string)) : outcome_class :=
  match r with
  | Returned (rc, _, _) => if Z.eqb rc 0 then Success else NonZeroExit
  | Raised (TimeoutExpired _ _) => TimedOut
  | Raised PermissionError => PermissionDenied
  | Raised FileNotFoundError => NotFound
  | Raised (ExcOther _) => Unexpected
  end.

(** ** Dispatch *)

(** [x or 'unknown'] for an attribute that may be [None] or empty. *)
Definition or_unknown (x : option string) : string := branch_or_unknown x.

(** [_prepare_command_environment]: the process environment, updated with
    the nine variables of the run. *)
Definition _prepare_command_environment (w : world) (repo_name : string)
    (wf : workflow) (run : workflow_run) : gmap string string :=
  <["COMMIT_AUTHOR" := commit_author w repo_name run]>
  (<["COMMIT_MESSAGE" := or_unknown (display_title run)]>
  (<["COMMIT_SHA" := or_unknown (head_sha run)]>
  (<["RUN_ID" := pretty (run_id run)]>
  (<["RUN_NUMBER" := pretty (run_number run)]>
  (<["BRANCH_NAME" := or_unknown (head_branch run)]>
  (<["WORKFLOW_ID" := pretty (wf_id wf)]>
  (<["WORKFLOW_NAME" := wf_name wf]>
  (<["REPO_NAME" := repo_name]> (os_environ w))))))))).

(** One call of the runner, as the dispatcher sees it: the key of the run
    it was made for and the arguments of [_execute_single_command]. *)
Record invocation := Invocation {
  inv_run_key : string;
  inv_command : string;
  inv_working_dir : string;
  inv_timeout : option Z
}.

(** One round of the [for] loop of [_execute_commands]: whether the
    command succeeded, and the runner calls made. An empty command text
    is skipped; when [_log_command_details] raises, the [except] clause
    of the round logs the error and the runner is not called. *)
Definition run_command (cfg : config) (w : world) (env_vars : gmap string string)
    (key : string) (cmd : cmd_config) : bool * list invocation :=
  let command := default "" (cc_command cmd) in
  let working_dir := default (os_getcwd w) (cc_working_directory cmd) in
  let timeout := effective_timeout cmd command in
  match command with
  | "" => (false, [])
  | _ =>
      match _log_command_details cfg with
      | Raised _ => (false, [])
      | Returned _ =>
          let call := Invocation key command working_dir timeout in
          match _execute_single_command cfg w command working_dir env_vars timeout with
          | Returned (Some result) => (Z.eqb (returncode_of result) 0, [call])
          | Returned None => (false, [call])
          | Raised _ => (false, [call])
          end
      end
  end.

(** The whole loop: [commands_executed] is set by a success and never
    cleared. *)
Fixpoint run_commands (cfg : config) (w : world) (env_vars : gmap string string)
    (key : string) (cmds : list cmd_config) (commands_executed : bool)
    : bool * list invocation :=
  match cmds with
  | [] => (commands_executed, [])
  | cmd :: rest =>
      let '(ok, calls) := run_command cfg w env_vars key cmd in
      let '(done, calls') :=
        run_commands cfg w env_vars key rest (commands_executed || ok) in
      (done, (calls ++ calls')%list)
  end.

(** The runner call for [cmd] is made and ends with return code 0: the
    command text is not empty and [_execute_single_command] hands back a
    result whose [returncode] is 0. *)
Definition command_succeeds (cfg : config) (w : world)
    (env_vars : gmap string string) (cmd : cmd_config) : Prop :=
  ∃ command result,
    cc_command cmd = Some command ∧ command ≠ "" ∧
    _execute_single_command cfg w command
      (default (os_getcwd w) (cc_working_directory cmd)) env_vars
      (effective_timeout cmd command) = Returned (Some result) ∧
    returncode_of result = 0.

(** [self.state_data['executed_runs'].add(run_key)], after the missing
    key and the old list format have been turned into a set. *)
Definition mark_executed (st : state_data) (key : string) : state_data :=
  StateData (last_checked_runs st) (Some (ExecSet ({[key]} ∪ executed_set st))).

(** [not commands_to_execute] *)
Definition is_empty {A} (l : list A) : bool :=
  match l with [] => true | _ => false end.

(** [_execute_commands]: the new state and the runner calls made. *)
Definition _execute_commands (cfg : config) (w : world) (st : state_data)
    (repo_name : string) (wf : workflow) (run : workflow_run)
    : state_data * list invocation :=
  let cmds := commands_to_execute cfg repo_name run in
  if is_empty cmds then (st, [])
  else
    let key := run_key repo_name wf run in
    let env_vars := _prepare_command_environment w repo_name wf run in
    let '(commands_executed, calls) := run_commands cfg w env_vars key cmds false in
    if (commands_executed || is_empty cmds)%bool
    then (mark_executed st key, calls)
    else (st, calls).

(** The [for run in new_runs] loop of [_monitor_workflows] and
    [_monitor_single_repository], with the service running. *)
Fixpoint dispatch_runs (cfg : config) (w : world) (st : state_data)
    (repo_name : string) (wf : workflow) (new_runs : list workflow_run)
    : state_data * list invocation :=
  match new_runs with
  | [] => (st, [])
  | run :: rest =>
      let '(st1, calls) := _execute_commands cfg w st repo_name wf run in
      let '(st2, calls') := dispatch_runs cfg w st1 repo_name wf rest in
      (st2, (calls ++ calls')%list)
  end.

(** Detection and dispatch for one workflow: one round of the
    [for workflow in workflows] loop. *)
Definition monitor_workflow (cfg : config) (w : world) (st : state_data)
    (current_time : Z) (repo_name : string) (wf : workflow)
    (runs : option (list workflow_run)) : state_data * list invocation :=
  dispatch_runs cfg w st repo_name wf
    (_get_new_successful_runs cfg st current_time repo_name wf runs).

(** ** Persisted state *)

(** The JSON document of the state file:
    [{"last_checked_runs": {...}, "executed_runs": [...]}], either key
    possibly missing. These are the documents [_save_state] writes; a
    document that holds something other than an array of strings under
    ["executed_runs"] has no counterpart here. [json.dump] followed by [json.load] gives back the
    document it was given, so the file is modelled by the document it
    holds; the order of the array is the order of the bytes written. *)
Record state_doc := StateDoc {
  doc_last_checked_runs : option (list (string * string));
  doc_executed_runs : option (list string)
}.

(** The content of an existing state file: a document, or bytes on which
    [json.load] (or the normalisation after it) raises. *)
Inductive file_content :=
| Document (d : state_doc)
| Garbage.

(** The state file: [None] when there is none yet; [fs_writable] tells
    whether creating the directory and opening the file for writing
    succeed. *)
Record filesystem := FileSystem {
  state_file : option file_content;
  fs_writable : bool
}.

(** The state [_load_state] falls back to. *)
Definition empty_state : state_data := StateData (Some []) (Some (ExecSet ∅)).

(** [_load_state] *)
Definition _load_state (fs : filesystem) : state_data :=
  match state_file fs with
  | Some (Document d) =>
      StateData (doc_last_checked_runs d)
        (match doc_executed_runs d with
         | Some l => Some (ExecSet (list_to_set l))
         | None => Some (ExecSet ∅)
         end)
  | Some Garbage => empty_state
  | None => empty_state
  end.

(** [state_to_save]: the copy of the state with the set turned into a
    list, [list(state_to_save['executed_runs'])]. *)
Definition state_to_save (st : state_data) : state_doc :=
  StateDoc (last_checked_runs st)
    (match executed_runs st with
     | Some (ExecSet s) => Some (elements s)
     | Some (ExecList l) => Some l
     | None => None
     end).

(** [_save_state]: a failure to write is logged and leaves the file as it
    was. *)
Definition _save_state (st : state_data) (fs : filesystem) : filesystem :=
  if fs_writable fs
  then FileSystem (Some (Document (state_to_save st))) (fs_writable fs)
  else fs.

(** ** Retention *)

(** Seven days, in microseconds. *)
Definition retention_window : Z := 604800 * 1000000.

(** A connected repository, for the retention pass:
    [repo.get_workflow_run(run_id)], [None] when the call raises. *)
Abbreviation repo_handle := (Z -> option workflow_run).

(** The body of the loop of [_cleanup_old_executed_runs]: is [key] put
    into [runs_to_remove]? *)
Definition to_remove (repos : gmap string repo_handle) (current_time : Z)
    (key : string) : bool :=
  match PyStr.split ":" key with
  | repo_name :: part1 :: part2 :: _ =>
      match PyStr.int part1 with
      | None => true
      | Some workflow_id =>
          match PyStr.int part2 with
          | None => true
          | Some run_id =>
              match repos !! repo_name with
              | Some repo =>
                  match repo run_id with
                  | Some run =>
                      match updated_at run with
                      | Some t => Z.ltb retention_window (current_time - t)
                      | None => false
                      end
                  | None => true
                  end
              | None => false
              end
          end
      end
  | _ => false
  end.

(** [_cleanup_old_executed_runs]. The removal is [-=] on the stored
    value: on a set it takes the keys out, on a list it raises
    [TypeError], which the outer [except] logs, leaving the state as it
    was. *)
Definition _cleanup_old_executed_runs (repos : gmap string repo_handle)
    (current_time : Z) (st : state_data) : state_data :=
  match executed_runs st with
  | None => st
  | Some v =>
      let runs_to_remove : gset string :=
        filter (fun key => to_remove repos current_time key = true) (as_set v) in
      if bool_decide (runs_to_remove = ∅) then st
      else match v with
           | ExecSet s =>
               StateData (last_checked_runs st) (Some (ExecSet (s ∖ runs_to_remove)))
           | ExecList _ => st
           end
  end.

(** ** A deployment scenario

    Repository [acme/api], branch [main], a successful run updated ten
    seconds ago, [execution_map["acme/api"]["main"] = ["deploy"]] and
    [deploy] is [echo deployed]. *)

Module Scenario.

Definition deploy : cmd_config :=
  CmdConfig (Some "Deploy the API") None (Some "echo deployed") (Some "/srv/api") None.

Definition cfg : config :=
  Config [] {[ "acme/api" := {[ "main" := ["deploy"] ]} ]}
         {[ "deploy" := deploy ]} [] LogAbsent.

(** A shell in which [echo deployed] prints its argument, [false]
    exits with status 1 and nothing else is installed. *)
Definition shell (command working_dir : string) (env_vars : gmap string string)
    (timeout : option Z) : outcome (Z * string * string) :=
  if String.eqb command "echo deployed" then Returned (0, "deployed", "")
  else if String.eqb command "false" then Returned (1, "", "")
  else Returned (127, "", "command not found").

Definition w : world :=
  World ∅ "/" (fun _ _ => "unknown") shell.

Definition ci : workflow := Workflow 67890 "CI".

(** Current time: 1000 seconds after the epoch. *)
Definition now : Z := 1000 * 1000000.

Definition run42 : workflow_run :=
  WorkflowRun 12345 42 (Some "success") (Some "main") (Some "abc123")
              (Some "Fix the build") (Some (990 * 1000000)).

(** The same configuration with [deploy] failing: its command is [false]. *)
Definition cfg_failing : config :=
  Config [] {[ "acme/api" := {[ "main" := ["deploy"] ]} ]}
       {[ "deploy" := CmdConfig (Some "Deploy the API") None (Some "false")
                                (Some "/srv/api") None ]} [] LogAbsent.

(** The same configuration with the definition of [deploy] missing. *)
Definition cfg_undefined : config :=
  Config [] {[ "acme/api" := {[ "main" := ["deploy"] ]} ]} ∅ [] LogAbsent.

(** A configuration that maps only the branch [release]. *)
Definition cfg_other_branch : config :=
  Config [] {[ "acme/api" := {[ "release" := ["deploy"] ]} ]}
       {[ "deploy" := deploy ]} [] LogAbsent.

(** The execution map of the resolution example:
    [{"org/repo": {"main": ["a"]}, "*": {"*": ["b"]}}]. *)
Definition example_map : gmap string (gmap string (list string)) :=
  {[ "org/repo" := {[ "main" := ["a"] ]}; "*" := {[ "*" := ["b"] ]} ]}.

(** The same map with an empty list for [main]:
    [{"org/repo": {"main": []}, "*": {"*": ["b"]}}]. *)
Definition empty_main_map : gmap string (gmap string (list string)) :=
  {[ "org/repo" := {[ "main" := [] ]}; "*" := {[ "*" := ["b"] ]} ]}.

(** A configuration whose repository entry is an empty wildcard list
    while the wildcard repository maps the branch [dev]:
    [{"org/repo": {"*": []}, "*": {"dev": ["notify"]}}]. *)
Definition notify : cmd_config :=
  CmdConfig (Some "Notify the team") None (Some "curl -X POST https://chat.example/hook")
          None None.

Definition cfg_empty_wildcard : config :=
  Config [] {[ "org/repo" := {[ "*" := [] ]}; "*" := {[ "dev" := ["notify"] ]} ]}
       {[ "notify" := notify ]} [] LogAbsent.

Definition run_on_dev : workflow_run :=
  WorkflowRun 777 7 (Some "success") (Some "dev") (Some "def456")
            (Some "Add a feature") (Some (995 * 1000000)).

(** A configuration whose only match is an empty list:
    [{"org/repo": {"dev": []}}]. *)
Definition cfg_empty_only : config :=
  Config [] {[ "org/repo" := {[ "dev" := [] ]} ]} {[ "notify" := notify ]} []
         LogAbsent.

(** Worlds whose shell cannot be started: permission denied, and
    working directory not found. *)
Definition w_denied : world :=
  World ∅ "/" (fun _ _ => "unknown") (fun _ _ _ _ => Raised PermissionError).

Definition w_missing : world :=
  World ∅ "/" (fun _ _ => "unknown") (fun _ _ _ _ => Raised FileNotFoundError).

(** A container build without a timeout of its own. *)
Definition build_image : cmd_config :=
  CmdConfig (Some "Build the image") (Some "build") (Some "docker build -t api .")
          None None.

(** Retention: ten days after the epoch, [acme/api] knows run 12345,
    updated on day two (eight days old), and run 22222, updated on day
    four (six days old); any other run is gone. *)
Definition day : Z := 86400 * 1000000.

Definition cleanup_time : Z := 10 * day.

Definition acme_api : repo_handle :=
  fun id =>
  if Z.eqb id 12345 then
    Some (WorkflowRun 12345 42 (Some "success") (Some "main") None None (Some (2 * day)))
  else if Z.eqb id 22222 then
    Some (WorkflowRun 22222 43 (Some "success") (Some "main") None None (Some (4 * day)))
  else None.

Definition repos : gmap string repo_handle := {[ "acme/api" := acme_api ]}.

Definition old_state : state_data :=
  StateData (Some [])
  (Some (ExecSet {[ "acme/api:67890:12345"; "acme/api:67890:22222";
                    "acme/api:67890:33333"; "acme/api:sixty:12345";
                    "gone/repo:1:2"; "garbage" ]})).

(** The deployment configuration with [logging.commands] set to null. *)
Definition cfg_null_logging : config :=
  Config [] {[ "acme/api" := {[ "main" := ["deploy"] ]} ]}
         {[ "deploy" := deploy ]} [] LogInvalid.

(** A state that holds the key of another run of the workflow. *)
Definition other_run_state : state_data :=
  StateData (Some []) (Some (ExecSet {[ "acme/api:67890:22222" ]})).

(** A state with a key of a repository that is not connected and whose
    workflow id is a word. *)
Definition stray_state : state_data :=
  StateData (Some []) (Some (ExecSet {[ "gone/repo:sixty:1" ]})).

(** The state after the first cycle, started with nothing executed. *)
Definition after_first_cycle : state_data :=
  (monitor_workflow cfg w empty_state now "acme/api" ci (Some [run42])).1.

End Scenario.

(** ** Auxiliary notions for the properties of the rest of the monitor *)

(** Every character of [s] satisfies [p]. *)
Fixpoint all_chars (p : ascii -> bool) (s : string) : bool :=
  match s with
  | EmptyString => true
  | String c t => p c && all_chars p t
  end.

(** [s] does not hold the character [sep]. *)
Definition free_of (sep : ascii) (s : string) : bool :=
  all_chars (fun c => negb (Ascii.eqb c sep)) s.

(** The number a string of decimal digits stands for, continuing from
    the value [acc] of the digits read so far. *)
Fixpoint digits_value (acc : Z) (d : string) : Z :=
  match d with
  | EmptyString => acc
  | String c t => digits_value (10 * acc + PyStr.digit_val c) t
  end.

(** The runner call the dispatcher makes for [cmd] when it reaches it:
    none for an entry whose command text is missing or empty, otherwise
    the call with the entry's working directory (the current directory
    when it has none) and its timeout. *)
Definition planned_call (w : world) (key : string) (cmd : cmd_config)
    : option invocation :=
  match default "" (cc_command cmd) with
  | "" => None
  | command =>
      Some (Invocation key command
              (default (os_getcwd w) (cc_working_directory cmd))
              (effective_timeout cmd command))
  end.

(** ** Repositories, workflows and the monitoring cycle *)

(** A workflow as the API lists it: id and name, the path of its file,
    and what [workflow.get_runs(status='completed')] yields ([None] when
    the call raises). *)
Record workflow_info := WorkflowInfo {
  wi_workflow : workflow;
  wi_path : string;
  wi_runs : option (list workflow_run)
}.

(** A repository object: [repo.get_workflows()] ([None] when the call
    raises) and [repo.get_workflow_run(run_id)]. *)
Record github_repo := GithubRepo {
  repo_workflows : option (list workflow_info);
  repo_workflow_run : Z -> option workflow_run
}.

(** [d[key] = value] on a dict kept in insertion order: the value of an
    existing key is replaced in place, a new key goes to the end. *)
Fixpoint dict_set {A} (d : list (string * A)) (key : string) (value : A)
    : list (string * A) :=
  match d with
  | [] => [(key, value)]
  | (k, v) :: rest =>
      if String.eqb k key then (k, value) :: rest
      else (k, v) :: dict_set rest key value
  end.

(** What [self.repos] holds while the loop of
    [_initialize_github_client] runs: one entry per name, each the
    repository [get_repo] gave for it. *)
Definition consistent (get_repo : string -> option github_repo)
    (repos : list (string * github_repo)) : Prop :=
  NoDup repos.*1 ∧ ∀ name repo, (name, repo) ∈ repos → get_repo name = Some repo.

(** [token.startswith("${")] *)
Definition is_placeholder_start (token : string) : bool :=
  String.prefix "${" token.

(** The loop of [_initialize_github_client] over the configured names:
    [get_repo] may raise, which skips the name; the repository is stored
    before access to its workflows is tested, and a failing test only
    logs. *)
Fixpoint connect_repositories (get_repo : string -> option github_repo)
    (repositories : list string) (repos : list (string * github_repo))
    : list (string * github_repo) :=
  match repositories with
  | [] => repos
  | repo_name :: rest =>
      match get_repo repo_name with
      | Some repo =>
          let repos' := dict_set repos repo_name repo in
          match repo_workflows repo with
          | Some _ => connect_repositories get_repo rest repos'
          | None => connect_repositories get_repo rest repos'
          end
      | None => connect_repositories get_repo rest repos
      end
  end.

(** [_initialize_github_client]: the connected repositories, or the
    [ValueError] that the function logs and raises again. [token] is
    [config['github']['token']], [None] for a null value. *)
Definition _initialize_github_client (token : option string)
    (repositories : list string) (get_repo : string -> option github_repo)
    : outcome (list (string * github_repo)) :=
  match token with
  | None => Raised (ExcOther "ValueError")
  | Some "" => Raised (ExcOther "ValueError")
  | Some token =>
      if is_placeholder_start token then Raised (ExcOther "ValueError")
      else if is_empty repositories then Raised (ExcOther "ValueError")
      else
        let repos := connect_repositories get_repo repositories [] in
        if is_empty repos then Raised (ExcOther "ValueError")
        else Returned repos
  end.

(** [workflow.path.split('/')[-1]] *)
Definition path_file_name (path : string) : string :=
  List.last (PyStr.split "/" path) "".

(** The test of [_get_workflows_to_monitor] on one workflow: its name,
    its id as text or the name of its file is in the configured list. *)
Definition workflow_selected (workflows_config : list string)
    (wi : workflow_info) : bool :=
  bool_decide (wf_name (wi_workflow wi) ∈ workflows_config)
  || bool_decide (pretty (wf_id (wi_workflow wi)) ∈ workflows_config)
  || bool_decide (path_file_name (wi_path wi) ∈ workflows_config).

(** The workflows monitored in one repository: all of them when nothing
    is configured, none when listing them raises. *)
Definition workflows_of (workflows_config : list string) (repo : github_repo)
    : list workflow_info :=
  match repo_workflows repo with
  | Some all_workflows =>
      if is_empty workflows_config then all_workflows
      else List.filter (workflow_selected workflows_config) all_workflows
  | None => []
  end.

(** [_get_workflows_to_monitor]: one entry per connected repository, in
    the order of [self.repos]. *)
Definition _get_workflows_to_monitor (workflows_config : list string)
    (repos : list (string * github_repo)) : list (string * list workflow_info) :=
  map (fun entry => (entry.1, workflows_of workflows_config entry.2)) repos.

(** The [for workflow in workflows] loop, the same text in
    [_monitor_workflows] and in [_monitor_single_repository], with the
    service running. [clock repo_name wf] is the current time read when
    the runs of [wf] are filtered. *)
Fixpoint monitor_repository (cfg : config) (w : world)
    (clock : string -> workflow -> Z) (st : state_data) (repo_name : string)
    (workflows : list workflow_info) : state_data * list invocation :=
  match workflows with
  | [] => (st, [])
  | wi :: rest =>
      let '(st1, calls) :=
        monitor_workflow cfg w st (clock repo_name (wi_workflow wi)) repo_name
          (wi_workflow wi) (wi_runs wi) in
      let '(st2, calls') := monitor_repository cfg w clock st1 repo_name rest in
      (st2, (calls ++ calls')%list)
  end.

(** [_monitor_single_repository]: the scan of one repository; it reports
    [True]. *)
Definition _monitor_single_repository (cfg : config) (w : world)
    (clock : string -> workflow -> Z) (st : state_data) (repo_name : string)
    (workflows : list workflow_info) : bool * state_data * list invocation :=
  let '(st', calls) := monitor_repository cfg w clock st repo_name workflows in
  (true, st', calls).

(** The [for repo_name, workflows in workflows_by_repo.items()] loop. *)
Fixpoint monitor_repositories (cfg : config) (w : world)
    (clock : string -> workflow -> Z) (st : state_data)
    (workflows_by_repo : list (string * list workflow_info))
    : state_data * list invocation :=
  match workflows_by_repo with
  | [] => (st, [])
  | (repo_name, workflows) :: rest =>
      let '(st1, calls) := monitor_repository cfg w clock st repo_name workflows in
      let '(st2, calls') := monitor_repositories cfg w clock st1 rest in
      (st2, (calls ++ calls')%list)
  end.

(** [_monitor_workflows]: one sequential cycle. Without any repository
    entry it returns at once; otherwise it scans every repository and
    saves the state. *)
Definition _monitor_workflows (cfg : config) (workflows_config : list string)
    (w : world) (clock : string -> workflow -> Z)
    (repos : list (string * github_repo)) (st : state_data) (fs : filesystem)
    : state_data * filesystem * list invocation :=
  let workflows_by_repo := _get_workflows_to_monitor workflows_config repos in
  if is_empty workflows_by_repo then (st, fs, [])
  else
    let '(st', calls) := monitor_repositories cfg w clock st workflows_by_repo in
    (st', _save_state st' fs, calls).

(** [self.repos] as the retention pass reads it: by name. *)
Definition repo_handles (repos : list (string * github_repo))
    : gmap string repo_handle :=
  list_to_map (map (fun entry => (entry.1, repo_workflow_run entry.2)) repos).

(** ** A cycle over two repositories

    [acme/api] lists the workflow [CI] with the fresh successful run 42
    and a failed run 43; [acme/web] cannot list its workflows. *)

Module Fleet.

Definition failed_run : workflow_run :=
  WorkflowRun 12346 43 (Some "failure") (Some "main") (Some "abc124")
              (Some "Break the build") (Some (995 * 1000000)).

Definition ci_info : workflow_info :=
  WorkflowInfo Scenario.ci ".github/workflows/ci.yml"
               (Some [failed_run; Scenario.run42]).

Definition nightly_info : workflow_info :=
  WorkflowInfo (Workflow 555 "Nightly") ".github/workflows/nightly.yml" (Some []).

Definition api : github_repo :=
  GithubRepo (Some [ci_info; nightly_info]) Scenario.acme_api.

Definition web : github_repo := GithubRepo None (fun _ => None).

Definition repos : list (string * github_repo) :=
  [("acme/api", api); ("acme/web", web)].

(** The API as [get_repo] sees it: two repositories exist. *)
Definition get_repo (repo_name : string) : option github_repo :=
  if String.eqb repo_name "acme/api" then Some api
  else if String.eqb repo_name "acme/web" then Some web
  else None.

Definition clock (repo_name : string) (wf : workflow) : Z := Scenario.now.

Definition disk : filesystem := FileSystem None true.

Definition the_call : invocation :=
  Invocation "acme/api:67890:12345" "echo deployed" "/srv/api" (Some 120).

End Fleet.

(** ** Configuration values and environment substitution *)

(** A value of the parsed configuration: a mapping, a sequence, a string,
    or any other scalar (number, boolean, null), kept as its text. *)
Unset Elimination Schemes.
Inductive yaml :=
| YDict (items : list (string * yaml))
| YList (items : list yaml)
| YStr (s : string)
| YScalar (text : string).
Set Elimination Schemes.

(** [s.endswith("}")] *)
Definition ends_with_brace (s : string) : bool :=
  String.prefix "}" (String.rev s).

(** [obj[2:-1]]: without the first two characters and the last one. *)
Definition placeholder_name (s : string) : string :=
  match s with
  | String _ (String _ rest) =>
      match String.rev rest with
      | String _ inner => String.rev inner
      | EmptyString => EmptyString
      end
  | _ => EmptyString
  end.

(** The variable a string asks for, when the string starts with the two
    characters of a placeholder and ends with a closing brace. *)
Definition placeholder (s : string) : option string :=
  if String.prefix "${" s && ends_with_brace s
  then Some (placeholder_name s) else None.

(** [_substitute_env_vars]; [environ] is the process environment, read
    with [os.getenv(env_var, obj)]. *)
Fixpoint _substitute_env_vars (environ : gmap string string) (obj : yaml) : yaml :=
  match obj with
  | YDict items =>
      YDict (map (fun '(key, value) => (key, _substitute_env_vars environ value)) items)
  | YList items => YList (map (_substitute_env_vars environ) items)
  | YStr s =>
      match placeholder s with
      | Some env_var => YStr (default s (environ !! env_var))
      | None => YStr s
      end
  | YScalar text => YScalar text
  end.

(** The variables a configuration asks for. *)
Fixpoint referenced (obj : yaml) : list string :=
  match obj with
  | YDict items => flat_map (fun '(_, value) => referenced value) items
  | YList items => flat_map referenced items
  | YStr s => option_list (placeholder s)
  | YScalar _ => []
  end.

(** The nine variables [_prepare_command_environment] sets. *)
Definition run_variables : list string :=
  ["REPO_NAME"; "WORKFLOW_NAME"; "WORKFLOW_ID"; "BRANCH_NAME"; "RUN_NUMBER";
   "RUN_ID"; "COMMIT_SHA"; "COMMIT_MESSAGE"; "COMMIT_AUTHOR"].

(** * Properties *)

(** ** Freshness filter and at-most-once dispatch *)

Section Detection.

Variables (cfg : config) (st : state_data) (current_time : Z)
          (repo_name : string) (wf : workflow).

Lemma should_monitor_branch_spec (branch : option string) :
  _should_monitor_branch cfg branch = true ↔
  branches_config cfg = [] ∨ ∃ b, branch = Some b ∧ b ∈ branches_config cfg.
Proof.
  unfold _should_monitor_branch.
  destruct (branches_config cfg) as [|b0 bs] eqn:Hbs.
  - split; [by left | done].
  - destruct branch as [b|].
    + rewrite bool_decide_eq_true. split.
      * intros Hin. right. by exists b.
      * intros [?|(b' & [= <-] & Hin)]; done.
    + split; [done|]. by intros [?|(b' & ? & _)].
Qed.

Lemma is_new_run_spec (executed : gset string) (run : workflow_run) :
  is_new_run cfg executed current_time repo_name wf run = true ↔
  (run_key repo_name wf run ∉ executed) ∧
  _should_monitor_branch cfg (head_branch run) = true ∧
  match updated_at run with
  | Some t => (current_time - t ≤ freshness_window)%Z
  | None => True
  end.
Proof.
  unfold is_new_run. case_bool_decide as Hk.
  - split; [done | by intros [? _]].
  - destruct (_should_monitor_branch cfg (head_branch run)); simpl.
    + destruct (updated_at run) as [t|].
      * destruct (Z.ltb_spec freshness_window (current_time - t)).
        -- split; [done | intros (_ & _ & ?); lia].
        -- split; [intros _; repeat split; [done | lia] | done].
      * split; done.
    + split; [done | by intros (_ & ? & _)].
Qed.

Lemma detected_not_executed (runs : option (list workflow_run)) (run : workflow_run) :
  run ∈ _get_new_successful_runs cfg st current_time repo_name wf runs →
  run_key repo_name wf run ∉ executed_set st.
Proof.
  destruct runs as [runs|]; simpl.
  - rewrite !list_elem_of_filter, is_new_run_spec. tauto.
  - by intros ?%elem_of_nil.
Qed.

End Detection.

(** C3. [_get_new_successful_runs] keeps a completed run exactly when its
    conclusion is ["success"], its run key is not among the executed
    runs, its branch is monitored (every branch is when the allow-list is
    empty) and it was updated at most 300 seconds before the current
    time; a run without an update timestamp passes the age check and is
    still subject to the other three. *)
Theorem freshness_filter_spec (cfg : config) (st : state_data) (current_time : Z)
    (repo_name : string) (wf : workflow) (runs : list workflow_run)
    (run : workflow_run) :
  run ∈ _get_new_successful_runs cfg st current_time repo_name wf (Some runs) ↔
  run ∈ runs ∧
  conclusion run = Some "success" ∧
  (run_key repo_name wf run ∉ executed_set st) ∧
  (branches_config cfg = [] ∨
   ∃ b, head_branch run = Some b ∧ b ∈ branches_config cfg) ∧
  match updated_at run with
  | Some t => (current_time - t ≤ 300 * 1000000)%Z
  | None => True
  end.
Proof.
  simpl. rewrite !list_elem_of_filter, is_new_run_spec, should_monitor_branch_spec.
  unfold freshness_window. tauto.
Qed.

(** The boundary of the window: a successful run updated 299 or 300
    seconds before the current time is kept, one updated 301 seconds
    before is not; a run without an update time is kept. *)
Example freshness_boundary :
  let detect updated :=
    _get_new_successful_runs Scenario.cfg empty_state Scenario.now "acme/api"
      Scenario.ci
      (Some [WorkflowRun 12345 42 (Some "success") (Some "main") None None updated]) in
  length (detect (Some (Scenario.now - 299 * 1000000))) = 1%nat ∧
  length (detect (Some (Scenario.now - 300 * 1000000))) = 1%nat ∧
  length (detect (Some (Scenario.now - 301 * 1000000))) = 0%nat ∧
  length (detect None) = 1%nat.
Proof. vm_compute. repeat split. Qed.

Section Dispatch.

Variables (cfg : config) (w : world).

Lemma run_command_key (env_vars : gmap string string) (key : string)
    (cmd : cmd_config) (c : invocation) :
  c ∈ (run_command cfg w env_vars key cmd).2 → inv_run_key c = key.
Proof.
  unfold run_command.
  destruct (default "" (cc_command cmd)) as [|a command]; simpl.
  - by intros ?%elem_of_nil.
  - destruct (_log_command_details cfg); [|by intros ?%elem_of_nil].
    destruct (_execute_single_command _ _ _ _ _ _) as [[r|]|e]; simpl;
      by intros ->%list_elem_of_singleton.
Qed.

Lemma run_commands_key (env_vars : gmap string string) (key : string)
    (cmds : list cmd_config) (done : bool) (c : invocation) :
  c ∈ (run_commands cfg w env_vars key cmds done).2 → inv_run_key c = key.
Proof.
  revert done. induction cmds as [|cmd rest IH]; intros done; simpl.
  - by intros ?%elem_of_nil.
  - destruct (run_command cfg w env_vars key cmd) as [ok calls] eqn:Hone.
    destruct (run_commands cfg w env_vars key rest (done || ok)) as [d calls'] eqn:Hrest.
    simpl. rewrite elem_of_app. intros [Hc|Hc].
    + apply (run_command_key env_vars key cmd). by rewrite Hone.
    + apply (IH (done || ok)%bool). by rewrite Hrest.
Qed.

Lemma execute_commands_key (st : state_data) (repo_name : string)
    (wf : workflow) (run : workflow_run) (c : invocation) :
  c ∈ (_execute_commands cfg w st repo_name wf run).2 →
  inv_run_key c = run_key repo_name wf run.
Proof.
  unfold _execute_commands.
  destruct (is_empty (commands_to_execute cfg repo_name run)); simpl.
  - by intros ?%elem_of_nil.
  - destruct (run_commands _ _ _ _ _ _) as [done calls] eqn:Hrun.
    intros Hc. eapply run_commands_key. erewrite Hrun.
    by destruct done.
Qed.

(** Dispatching never takes a key out of the executed set. *)
Lemma execute_commands_mono (st : state_data) (repo_name : string)
    (wf : workflow) (run : workflow_run) (key : string) :
  key ∈ executed_set st →
  key ∈ executed_set (_execute_commands cfg w st repo_name wf run).1.
Proof.
  intros Hk. unfold _execute_commands.
  destruct (is_empty (commands_to_execute cfg repo_name run)); [done|].
  destruct (run_commands _ _ _ _ _ _) as [[] calls]; simpl; [|done].
  unfold executed_set, mark_executed; simpl. set_solver.
Qed.

Lemma dispatch_runs_key (st : state_data) (repo_name : string) (wf : workflow)
    (new_runs : list workflow_run) (c : invocation) :
  c ∈ (dispatch_runs cfg w st repo_name wf new_runs).2 →
  ∃ run, run ∈ new_runs ∧ inv_run_key c = run_key repo_name wf run.
Proof.
  revert st. induction new_runs as [|run rest IH]; intros st; simpl.
  - by intros ?%elem_of_nil.
  - destruct (_execute_commands cfg w st repo_name wf run) as [st1 calls] eqn:Hexec.
    destruct (dispatch_runs cfg w st1 repo_name wf rest) as [st2 calls'] eqn:Hrest.
    simpl. rewrite elem_of_app. intros [Hc|Hc].
    + exists run. split; [by left|].
      apply (execute_commands_key st). by rewrite Hexec.
    + destruct (IH st1 ltac:(by rewrite Hrest)) as (run' & Hin & Hkey).
      exists run'. split; [by right | done].
Qed.

Lemma dispatch_runs_mono (st : state_data) (repo_name : string) (wf : workflow)
    (new_runs : list workflow_run) (key : string) :
  key ∈ executed_set st →
  key ∈ executed_set (dispatch_runs cfg w st repo_name wf new_runs).1.
Proof.
  revert st. induction new_runs as [|run rest IH]; intros st Hk; simpl; [done|].
  pose proof (execute_commands_mono st repo_name wf run key Hk) as Hk1.
  destruct (_execute_commands cfg w st repo_name wf run) as [st1 calls].
  specialize (IH st1 Hk1).
  by destruct (dispatch_runs cfg w st1 repo_name wf rest) as [st2 calls'].
Qed.

End Dispatch.

(** C1. Once a run key is in the executed set of the state, detection
    leaves out every run with that key, a detection and dispatch pass
    started from that state makes no runner call for the key, and the key
    is still in the executed set after the pass: a second pass after one
    that marked the run executes nothing for it. *)
Theorem at_most_once (cfg : config) (w : world) (st : state_data)
    (current_time : Z) (repo_name : string) (wf : workflow)
    (runs : option (list workflow_run)) (key : string) :
  key ∈ executed_set st →
  (∀ run, run ∈ _get_new_successful_runs cfg st current_time repo_name wf runs →
          run_key repo_name wf run ≠ key) ∧
  (∀ c, c ∈ (monitor_workflow cfg w st current_time repo_name wf runs).2 →
        inv_run_key c ≠ key) ∧
  key ∈ executed_set (monitor_workflow cfg w st current_time repo_name wf runs).1.
Proof.
  intros Hk. split; [|split].
  - intros run Hrun Heq. subst key. by eapply detected_not_executed.
  - intros c Hc Heq. unfold monitor_workflow in Hc.
    apply dispatch_runs_key in Hc as (run & Hrun & Hkey).
    rewrite Hkey in Heq. subst key. by eapply detected_not_executed.
  - by apply dispatch_runs_mono.
Qed.

(** The first cycle dispatches the run once and records its key. *)
Example scenario_first_cycle :
  monitor_workflow Scenario.cfg Scenario.w empty_state Scenario.now
                   "acme/api" Scenario.ci (Some [Scenario.run42])
  = (StateData (Some []) (Some (ExecSet {[ "acme/api:67890:12345" ]})),
     [Invocation "acme/api:67890:12345" "echo deployed" "/srv/api" (Some 120)]).
Proof. vm_compute. reflexivity. Qed.

(** The second cycle, on the state the first one left, dispatches nothing. *)
Example scenario_second_cycle :
  (monitor_workflow Scenario.cfg Scenario.w Scenario.after_first_cycle
                    (Scenario.now + 60 * 1000000) "acme/api" Scenario.ci
                    (Some [Scenario.run42])).2 = [].
Proof. vm_compute. reflexivity. Qed.

Lemma at_most_once_witness :
  "acme/api:67890:12345" ∈ executed_set Scenario.after_first_cycle ∧
  (∀ run, run ∈ _get_new_successful_runs Scenario.cfg Scenario.after_first_cycle
                  (Scenario.now + 60 * 1000000) "acme/api" Scenario.ci
                  (Some [Scenario.run42]) →
          run_key "acme/api" Scenario.ci run ≠ "acme/api:67890:12345") ∧
  (∀ c, c ∈ (monitor_workflow Scenario.cfg Scenario.w Scenario.after_first_cycle
               (Scenario.now + 60 * 1000000) "acme/api" Scenario.ci
               (Some [Scenario.run42])).2 →
        inv_run_key c ≠ "acme/api:67890:12345") ∧
  "acme/api:67890:12345" ∈
    executed_set (monitor_workflow Scenario.cfg Scenario.w Scenario.after_first_cycle
                    (Scenario.now + 60 * 1000000) "acme/api" Scenario.ci
                    (Some [Scenario.run42])).1.
Proof.
  assert (Hk : "acme/api:67890:12345" ∈ executed_set Scenario.after_first_cycle)
    by (vm_compute; reflexivity).
  split; [exact Hk|].
  apply (at_most_once Scenario.cfg Scenario.w Scenario.after_first_cycle
           (Scenario.now + 60 * 1000000) "acme/api" Scenario.ci
           (Some [Scenario.run42]) "acme/api:67890:12345" Hk).
Defined.

(** ** Marking a run executed *)

Section Marking.

Variables (cfg : config) (w : world).

Lemma run_command_ok (env_vars : gmap string string) (key : string) (cmd : cmd_config) :
  (run_command cfg w env_vars key cmd).1 = true ↔ command_succeeds cfg w env_vars cmd.
Proof.
  unfold run_command, command_succeeds.
  destruct (cc_command cmd) as [[|a command]|] eqn:Hcmd; simpl.
  - split; [done | by intros (c & r & [= <-] & ? & _)].
  - unfold _log_command_details, _execute_single_command.
    destruct (read_command_logging cfg) as [[]|e0];
      [|split; [done | by intros (c & r & _ & _ & ? & _)]].
    destruct (try_subprocess_run _ _ _ _ _) as [[r|]|e] eqn:Hexec; simpl.
    + rewrite Z.eqb_eq. split.
      * intros Hrc. exists (String a command), r. by rewrite Hexec.
      * intros (c & r' & [= <-] & _ & Hr & Hrc). rewrite Hexec in Hr. congruence.
    + split; [done|]. intros (c & r' & [= <-] & _ & Hr & _).
      rewrite Hexec in Hr. congruence.
    + split; [done|]. intros (c & r' & [= <-] & _ & Hr & _).
      rewrite Hexec in Hr. congruence.
  - split; [done | by intros (c & r & [=] & _)].
Qed.

Lemma run_commands_done (env_vars : gmap string string) (key : string)
    (cmds : list cmd_config) (done : bool) :
  (run_commands cfg w env_vars key cmds done).1 = true ↔
  done = true ∨ ∃ cmd, cmd ∈ cmds ∧ command_succeeds cfg w env_vars cmd.
Proof.
  revert done. induction cmds as [|cmd rest IH]; intros done; simpl.
  - split; [by left|]. intros [?|(c & ?%elem_of_nil & _)]; done.
  - pose proof (run_command_ok env_vars key cmd) as Hok.
    destruct (run_command cfg w env_vars key cmd) as [ok calls].
    specialize (IH (done || ok)%bool).
    destruct (run_commands cfg w env_vars key rest (done || ok)) as [d calls'].
    simpl in *. rewrite IH, orb_true_iff, Hok. split.
    + intros [[?|Hc]|(c & Hin & Hc)]; [by left| |].
      * right. exists cmd. split; [by left | done].
      * right. exists c. split; [by right | done].
    + intros [?|(c & Hin & Hc)]; [by left; left|].
      apply elem_of_cons in Hin as [->|Hin]; [by left; right|].
      right. by exists c.
Qed.

Lemma lookup_definitions_undefined (names : list string) :
  (∀ n, n ∈ names → command_definitions cfg !! n = None) →
  lookup_definitions (command_definitions cfg) names = [].
Proof.
  induction names as [|n rest IH]; intros Hnone; simpl; [done|].
  rewrite (Hnone n) by by left. apply IH. intros m Hm. apply Hnone. by right.
Qed.

End Marking.

(** C2 (as the code has it). When at least one command is resolved for an
    eligible run, its run key is added to the executed set exactly when
    one of the commands was run and ended with return code 0. When the
    execution map names commands for the run and none of the names has a
    definition, nothing is run and the state is left as it was. *)
Theorem marking_condition (cfg : config) (w : world) (st : state_data)
    (repo_name : string) (wf : workflow) (run : workflow_run) :
  (commands_to_execute cfg repo_name run ≠ [] →
   run_key repo_name wf run ∉ executed_set st →
   (run_key repo_name wf run ∈
      executed_set (_execute_commands cfg w st repo_name wf run).1 ↔
    ∃ cmd, cmd ∈ commands_to_execute cfg repo_name run ∧
           command_succeeds cfg w (_prepare_command_environment w repo_name wf run) cmd)) ∧
  (∀ names,
     execution_map cfg ≠ ∅ →
     resolve_repo_commands (execution_map cfg) repo_name
       (branch_or_unknown (head_branch run)) = Some names →
     names ≠ [] →
     (∀ n, n ∈ names → command_definitions cfg !! n = None) →
     _execute_commands cfg w st repo_name wf run = (st, [])).
Proof.
  split.
  - intros Hcmds Hfresh. unfold _execute_commands.
    destruct (commands_to_execute cfg repo_name run) as [|cmd cmds] eqn:Hres; [done|].
    simpl is_empty. cbv iota.
    pose proof (run_commands_done cfg w (_prepare_command_environment w repo_name wf run)
                  (run_key repo_name wf run) (cmd :: cmds) false) as Hdone.
    destruct (run_commands _ _ _ _ _ _) as [done calls]. simpl in Hdone.
    rewrite orb_false_r. destruct done; simpl.
    + split.
      * intros _. destruct Hdone as [Hd _].
        destruct (Hd eq_refl) as [Hf|Hcmd]; [discriminate Hf | exact Hcmd].
      * intros _. unfold executed_set, mark_executed; simpl.
        apply elem_of_union. left. by apply elem_of_singleton.
    + split; [done|]. intros Hex.
      assert (false = true) by (apply Hdone; by right). done.
  - intros names Hmap Hres Hne Hundef. unfold _execute_commands, commands_to_execute.
    rewrite bool_decide_eq_true_2 by done. rewrite Hres.
    destruct names as [|n ns]; [done|].
    by rewrite lookup_definitions_undefined.
Qed.

Lemma marking_condition_witness :
  ("acme/api:67890:12345" ∈
     executed_set (_execute_commands Scenario.cfg Scenario.w empty_state
                     "acme/api" Scenario.ci Scenario.run42).1 ↔
   ∃ cmd, cmd ∈ commands_to_execute Scenario.cfg "acme/api" Scenario.run42 ∧
          command_succeeds Scenario.cfg Scenario.w
            (_prepare_command_environment Scenario.w "acme/api" Scenario.ci
               Scenario.run42) cmd) ∧
  _execute_commands Scenario.cfg_undefined Scenario.w empty_state
    "acme/api" Scenario.ci Scenario.run42 = (empty_state, []).
Proof.
  split.
  - apply (proj1 (marking_condition Scenario.cfg Scenario.w empty_state
                    "acme/api" Scenario.ci Scenario.run42)).
    + vm_compute. discriminate.
    + vm_compute. discriminate.
  - apply (proj2 (marking_condition Scenario.cfg_undefined Scenario.w empty_state
                    "acme/api" Scenario.ci Scenario.run42) ["deploy"]).
    + vm_compute. discriminate.
    + vm_compute. reflexivity.
    + discriminate.
    + intros n Hn. apply list_elem_of_singleton in Hn. subst n.
      vm_compute. reflexivity.
Defined.

(** A command that is run and fails leaves the run unmarked, although a
    command ran. *)
Lemma marking_counterexample :
  (_execute_commands Scenario.cfg_failing Scenario.w empty_state
     "acme/api" Scenario.ci Scenario.run42).2
  = [Invocation "acme/api:67890:12345" "false" "/srv/api" (Some 120)] ∧
  "acme/api:67890:12345" ∉
    executed_set (_execute_commands Scenario.cfg_failing Scenario.w empty_state
                    "acme/api" Scenario.ci Scenario.run42).1.
Proof.
  split.
  - vm_compute. reflexivity.
  - vm_compute. discriminate.
Qed.

(** With no command configured for the branch of the run,
    [_execute_commands] returns before the marking step. *)
Example no_commands_returns_early :
  commands_to_execute Scenario.cfg_other_branch "acme/api" Scenario.run42 = [] ∧
  _execute_commands Scenario.cfg_other_branch Scenario.w empty_state
    "acme/api" Scenario.ci Scenario.run42 = (empty_state, []).
Proof. split; vm_compute; reflexivity. Qed.

(** ** Command resolution *)

Section Resolution.

Variable em : gmap string (gmap string (list string)).

(** The cascade of the code, in terms of the two candidates: the entry
    under the repository wins when it holds a non-empty list; otherwise
    the entry under ["*"] is taken when there is one. *)
Lemma resolve_repo_commands_cases (repo_name branch_name : string) :
  resolve_repo_commands em repo_name branch_name =
  if truthy_commands (repo_candidate em repo_name branch_name)
  then repo_candidate em repo_name branch_name
  else match default_candidate em branch_name with
       | Some cmds => Some cmds
       | None => repo_candidate em repo_name branch_name
       end.
Proof.
  unfold resolve_repo_commands, repo_candidate, default_candidate, entry.
  destruct (em !! repo_name) as [repo_config|]; simpl;
    [destruct (repo_config !! branch_name) as [[|n ns]|]; simpl;
       [| |destruct (repo_config !! "*") as [[|n ns]|]; simpl]|];
    try reflexivity;
    (destruct (em !! "*") as [default_config|]; simpl; [|reflexivity]);
    (destruct (default_config !! branch_name); [reflexivity|]);
    destruct (default_config !! "*"); reflexivity.
Qed.

End Resolution.

(** C4 (as the code has it). Unless the entry found under the
    repository's own key is an empty list, the resolver yields the first
    existing entry in the order [execution_map[repo][branch]],
    [execution_map[repo]['*']], [execution_map['*'][branch]],
    [execution_map['*']['*']]. With the map
    [{"org/repo": {"main": ["a"]}, "*": {"*": ["b"]}}] it yields [["a"]]
    for [("org/repo", "main")] and [["b"]] for [("org/repo", "dev")] and
    for [("other/repo", "dev")]. *)
Theorem resolution_precedence :
  (∀ em repo_name branch_name,
     repo_candidate em repo_name branch_name ≠ Some [] →
     resolve_repo_commands em repo_name branch_name
     = first_match em repo_name branch_name) ∧
  resolve_repo_commands Scenario.example_map "org/repo" "main" = Some ["a"] ∧
  resolve_repo_commands Scenario.example_map "org/repo" "dev" = Some ["b"] ∧
  resolve_repo_commands Scenario.example_map "other/repo" "dev" = Some ["b"].
Proof.
  split; [|by vm_compute].
  intros em repo_name branch_name Hne.
  rewrite resolve_repo_commands_cases. unfold first_match.
  destruct (repo_candidate em repo_name branch_name) as [[|n ns]|]; simpl.
  - done.
  - done.
  - by destruct (default_candidate em branch_name).
Qed.

Lemma resolution_precedence_witness :
  resolve_repo_commands Scenario.example_map "org/repo" "dev"
  = first_match Scenario.example_map "org/repo" "dev".
Proof.
  apply (proj1 resolution_precedence Scenario.example_map "org/repo" "dev").
  vm_compute. discriminate.
Defined.

(** The first existing entry for [("org/repo", "main")] is the empty
    list, yet the resolver yields the wildcard entry. *)
Lemma resolution_precedence_counterexample :
  first_match Scenario.empty_main_map "org/repo" "main" = Some [] ∧
  resolve_repo_commands Scenario.empty_main_map "org/repo" "main" = Some ["b"].
Proof. split; vm_compute; reflexivity. Qed.

(** C5 (as the code has it). When the first existing entry is an empty
    list, the resolver yields the entry under the wildcard repository
    ([execution_map['*'][branch]], else [execution_map['*']['*']]) when
    there is one, and the empty list otherwise; when that result is empty
    no command is resolved. *)
Theorem empty_match_falls_through (cfg : config) (repo_name : string)
    (run : workflow_run) :
  first_match (execution_map cfg) repo_name (branch_or_unknown (head_branch run))
  = Some [] →
  resolve_repo_commands (execution_map cfg) repo_name
    (branch_or_unknown (head_branch run))
  = Some (default [] (default_candidate (execution_map cfg)
                        (branch_or_unknown (head_branch run)))) ∧
  (default [] (default_candidate (execution_map cfg)
                 (branch_or_unknown (head_branch run))) = [] →
   commands_to_execute cfg repo_name run = []).
Proof.
  set (em := execution_map cfg). set (branch := branch_or_unknown (head_branch run)).
  intros Hfirst.
  assert (Hres : resolve_repo_commands em repo_name branch
                 = Some (default [] (default_candidate em branch))).
  { rewrite resolve_repo_commands_cases. unfold first_match in Hfirst.
    destruct (repo_candidate em repo_name branch) as [[|n ns]|]; simpl.
    - by destruct (default_candidate em branch).
    - done.
    - by rewrite Hfirst. }
  split; [done|]. intros Hempty.
  unfold commands_to_execute. fold em branch. rewrite Hres, Hempty.
  case_bool_decide as Hmap; [done|].
  assert (Hem : em = ∅) by (destruct (decide (em = ∅)); [done | by destruct Hmap]).
  rewrite Hem in Hfirst.
  unfold first_match, repo_candidate, default_candidate, entry in Hfirst.
  rewrite !lookup_empty in Hfirst. discriminate Hfirst.
Qed.

Lemma empty_match_falls_through_witness :
  resolve_repo_commands (execution_map Scenario.cfg_empty_only) "org/repo" "dev"
  = Some [] ∧
  commands_to_execute Scenario.cfg_empty_only "org/repo" Scenario.run_on_dev = [].
Proof.
  destruct (empty_match_falls_through Scenario.cfg_empty_only "org/repo"
              Scenario.run_on_dev) as [Hres Hcmds].
  - vm_compute. reflexivity.
  - split; [exact Hres | apply Hcmds; vm_compute; reflexivity].
Defined.

(** The first existing entry for [("org/repo", "dev")] is the empty list
    under the repository's wildcard branch, yet a command is resolved from
    the wildcard repository. *)
Lemma empty_match_counterexample :
  first_match (execution_map Scenario.cfg_empty_wildcard) "org/repo" "dev" = Some [] ∧
  commands_to_execute Scenario.cfg_empty_wildcard "org/repo" Scenario.run_on_dev
  = [CmdConfig (Some "Notify the team") (Some "notify")
               (Some "curl -X POST https://chat.example/hook") None None].
Proof. split; vm_compute; reflexivity. Qed.

(** ** Command runner *)

(** C6 (as the code has it). When [logging.commands] is missing or a
    mapping, the runner returns and does not raise, whatever
    [subprocess.run] does: it hands back the completed process when the
    call returned, a stand-in result with return code -1 and the partial
    output when the call timed out, and [None] when the call raised
    [PermissionError], [FileNotFoundError] or any other exception. *)
Theorem runner_never_raises (cfg : config) (w : world) (command working_dir : string)
    (env_vars : gmap string string) (timeout : option Z) :
  logging_commands cfg ≠ LogInvalid →
  ∃ r, _execute_single_command cfg w command working_dir env_vars timeout
       = Returned r ∧
       match subprocess_run w command working_dir env_vars timeout with
       | Returned (rc, out, err) => r = Some (CompletedProcess rc out err)
       | Raised (TimeoutExpired out _) =>
           ∃ message, r = Some (TimeoutResult (-1) (partial_stdout out) message)
       | Raised PermissionError => r = None
       | Raised FileNotFoundError => r = None
       | Raised (ExcOther _) => r = None
       end.
Proof.
  intros Hlog. unfold _execute_single_command, read_command_logging.
  destruct (logging_commands cfg); [| |done];
    unfold try_subprocess_run;
    destruct (subprocess_run w command working_dir env_vars timeout)
      as [[[rc out] err]|[out err| | |name]]; eauto.
Qed.

Lemma runner_never_raises_witness :
  ∃ r, _execute_single_command Scenario.cfg Scenario.w_denied "echo deployed"
         "/srv/api" ∅ (Some 120) = Returned r ∧ r = None.
Proof.
  apply (runner_never_raises Scenario.cfg Scenario.w_denied "echo deployed"
           "/srv/api" ∅ (Some 120)).
  vm_compute. discriminate.
Defined.

(** No reading of the value the runner returns tells the six outcome
    classes apart: permission denied and not found both give [None]. *)
Lemma runner_classification_counterexample :
  ¬ ∃ classify : option run_result → outcome_class,
      ∀ cfg w command working_dir env_vars timeout r,
        _execute_single_command cfg w command working_dir env_vars timeout
        = Returned r →
        classify r = class_of_call (subprocess_run w command working_dir env_vars timeout).
Proof.
  intros (classify & Hclass).
  pose proof (Hclass Scenario.cfg Scenario.w_denied "echo deployed" "/srv/api" ∅
                (Some 120) None eq_refl) as Hdenied.
  pose proof (Hclass Scenario.cfg Scenario.w_missing "echo deployed" "/srv/api" ∅
                (Some 120) None eq_refl) as Hmissing.
  simpl in Hdenied, Hmissing. congruence.
Qed.

(** With [logging.commands] set to null the runner raises before it
    reaches its [try]; the dispatcher, which reads the same setting
    first, then makes no runner call at all and marks nothing. *)
Example null_logging_raises :
  _execute_single_command Scenario.cfg_null_logging Scenario.w "echo deployed"
    "/srv/api" ∅ (Some 120) = Raised (ExcOther "AttributeError") ∧
  _execute_commands Scenario.cfg_null_logging Scenario.w empty_state "acme/api"
    Scenario.ci Scenario.run42 = (empty_state, []).
Proof. split; vm_compute; reflexivity. Qed.

(** ** Persistence *)

(** C8. With a writable state file, saving a state and loading it back
    gives the same set of executed runs, and saving the unchanged state a
    second time leaves the file exactly as the first save wrote it. *)
Theorem persistence_round_trip (st : state_data) (fs : filesystem) :
  fs_writable fs = true →
  executed_set (_load_state (_save_state st fs)) = executed_set st ∧
  _save_state st (_save_state st fs) = _save_state st fs ∧
  executed_set (_load_state (_save_state (_load_state (_save_state st fs))
                               (_save_state st fs)))
  = executed_set st.
Proof.
  intros Hw.
  assert (Hsave : ∀ st' fs', fs_writable fs' = true →
            _save_state st' fs' = FileSystem (Some (Document (state_to_save st'))) true).
  { intros st' fs' Hw'. unfold _save_state. by rewrite Hw'. }
  assert (Hload : ∀ st', executed_set (_load_state
                           (FileSystem (Some (Document (state_to_save st'))) true))
                         = executed_set st').
  { intros st'. unfold _load_state, state_to_save, executed_set. simpl.
    destruct (executed_runs st') as [[s|l]|]; simpl; [|done..].
    apply list_to_set_elements_L. }
  rewrite (Hsave st fs Hw). rewrite !Hsave by done. by rewrite !Hload.
Qed.

Lemma persistence_round_trip_witness :
  executed_set (_load_state (_save_state Scenario.old_state (FileSystem None true)))
  = executed_set Scenario.old_state ∧
  _save_state Scenario.old_state (_save_state Scenario.old_state (FileSystem None true))
  = _save_state Scenario.old_state (FileSystem None true) ∧
  executed_set (_load_state (_save_state
                  (_load_state (_save_state Scenario.old_state (FileSystem None true)))
                  (_save_state Scenario.old_state (FileSystem None true))))
  = executed_set Scenario.old_state.
Proof.
  apply (persistence_round_trip Scenario.old_state (FileSystem None true)).
  reflexivity.
Defined.

(** ** Timeouts *)

Section Substrings.

Lemma append_cons (c : ascii) (s t : string) :
  String c s +:+ t = String c (s +:+ t).
Proof. reflexivity. Qed.

Lemma append_nil (t : string) : "" +:+ t = t.
Proof. reflexivity. Qed.

Lemma prefix_spec (kw s : string) :
  String.prefix kw s = true ↔ ∃ post, s = kw +:+ post.
Proof.
  revert s. induction kw as [|a kw IH]; intros s; simpl.
  - split; [intros _; by exists s | by destruct s].
  - destruct s as [|b s]; simpl.
    + split; [done | by intros (post & ?)].
    + destruct (ascii_dec a b) as [->|Hne].
      * rewrite IH. split; intros (post & Hs); exists post;
          rewrite append_cons in *; congruence.
      * split; [done|]. intros (post & Hs). rewrite append_cons in Hs. congruence.
Qed.

Lemma contains_spec (kw s : string) :
  PyStr.contains kw s = true ↔ occurs_in kw s.
Proof.
  unfold occurs_in. induction s as [|c s IH].
  - change (PyStr.contains kw "") with (String.prefix kw "" || false)%bool.
    rewrite orb_false_r, prefix_spec. split.
    + intros (post & Hs). by exists "", post.
    + intros ([|a pre] & post & Hs); [by exists post | discriminate Hs].
  - change (PyStr.contains kw (String c s))
      with (String.prefix kw (String c s) || PyStr.contains kw s)%bool.
    rewrite orb_true_iff, prefix_spec, IH. split.
    + intros [(post & Hs)|(pre & post & Hs)].
      * by exists "", post.
      * exists (String c pre), post. by rewrite append_cons, Hs.
    + intros ([|a pre] & post & Hs).
      * left. by exists post.
      * right. exists pre, post. rewrite append_cons in Hs. congruence.
Qed.

Lemma contains_any_spec (kws : list string) (command : string) :
  PyStr.contains_any kws (PyStr.lower command) = true ↔ mentions kws command.
Proof.
  unfold PyStr.contains_any, mentions. rewrite existsb_exists.
  split; intros (kw & Hin & Hkw); exists kw.
  - by rewrite list_elem_of_In, <- contains_spec.
  - by rewrite <- list_elem_of_In, contains_spec.
Qed.

End Substrings.

(** The table of [_get_default_timeout] as the code evaluates it: the
    lower-cased command text is matched against four keyword groups in
    this order, the first group with a keyword occurring in the text
    deciding. *)
Lemma default_timeout_table (command : string) :
  (mentions ["curl"; "wget"; "http"] command →
   _get_default_timeout command = 60) ∧
  (¬ mentions ["curl"; "wget"; "http"] command →
   mentions ["kubectl"] command →
   _get_default_timeout command = 120) ∧
  (¬ mentions ["curl"; "wget"; "http"] command →
   ¬ mentions ["kubectl"] command →
   mentions ["git"; "clone"; "pull"; "push"] command →
   _get_default_timeout command = 180) ∧
  (¬ mentions ["curl"; "wget"; "http"] command →
   ¬ mentions ["kubectl"] command →
   ¬ mentions ["git"; "clone"; "pull"; "push"] command →
   mentions ["docker"; "podman"] command →
   _get_default_timeout command = 300) ∧
  (¬ mentions ["curl"; "wget"; "http"] command →
   ¬ mentions ["kubectl"] command →
   ¬ mentions ["git"; "clone"; "pull"; "push"] command →
   ¬ mentions ["docker"; "podman"] command →
   _get_default_timeout command = 120).
Proof.
  unfold _get_default_timeout.
  pose proof (contains_any_spec ["curl"; "wget"; "http"] command) as Hhttp.
  pose proof (contains_any_spec ["kubectl"] command) as Hkube.
  pose proof (contains_any_spec ["git"; "clone"; "pull"; "push"] command) as Hgit.
  pose proof (contains_any_spec ["docker"; "podman"] command) as Hdocker.
  assert (Hone : PyStr.contains_any ["kubectl"] (PyStr.lower command)
                 = PyStr.contains "kubectl" (PyStr.lower command))
    by (unfold PyStr.contains_any; simpl; apply orb_false_r).
  rewrite Hone in Hkube.
  destruct (PyStr.contains_any ["curl"; "wget"; "http"] (PyStr.lower command));
    [pose proof (proj1 Hhttp eq_refl) as Mhttp
    |assert (Mhttp : ¬ mentions ["curl"; "wget"; "http"] command)
       by (intros Hm; apply Hhttp in Hm; discriminate Hm)];
  (destruct (PyStr.contains "kubectl" (PyStr.lower command));
    [pose proof (proj1 Hkube eq_refl) as Mkube
    |assert (Mkube : ¬ mentions ["kubectl"] command)
       by (intros Hm; apply Hkube in Hm; discriminate Hm)]);
  (destruct (PyStr.contains_any ["git"; "clone"; "pull"; "push"] (PyStr.lower command));
    [pose proof (proj1 Hgit eq_refl) as Mgit
    |assert (Mgit : ¬ mentions ["git"; "clone"; "pull"; "push"] command)
       by (intros Hm; apply Hgit in Hm; discriminate Hm)]);
  (destruct (PyStr.contains_any ["docker"; "podman"] (PyStr.lower command));
    [pose proof (proj1 Hdocker eq_refl) as Mdocker
    |assert (Mdocker : ¬ mentions ["docker"; "podman"] command)
       by (intros Hm; apply Hdocker in Hm; discriminate Hm)]);
  clear Hhttp Hkube Hgit Hdocker Hone;
  repeat split; intros; first [reflexivity | contradiction].
Qed.

(** C9, at the failing input. A command of the container tool that pulls
    an image has no timeout of its own; the keyword [pull] of the group
    of 180 seconds is looked for before [docker], so the command gets
    180 seconds and not the 300 seconds of container operations. *)
Theorem docker_pull_timeout :
  mentions ["docker"; "podman"] "docker pull nginx:latest" ∧
  ¬ mentions ["git"] "docker pull nginx:latest" ∧
  effective_timeout (CmdConfig None None (Some "docker pull nginx:latest") None None)
                    "docker pull nginx:latest" = Some 180.
Proof.
  split; [|split].
  - rewrite <- contains_any_spec. vm_compute. reflexivity.
  - rewrite <- contains_any_spec. vm_compute. discriminate.
  - vm_compute. reflexivity.
Qed.

(** A container command without [pull] or [push] gets the 300 seconds;
    an own timeout wins over the table, and a null timeout is passed on
    as no time limit. *)
Example timeout_examples :
  effective_timeout Scenario.build_image "docker build -t api ." = Some 300 ∧
  effective_timeout (CmdConfig None None (Some "docker pull nginx") None (Some (Some 900)))
                    "docker pull nginx" = Some 900 ∧
  effective_timeout (CmdConfig None None (Some "docker pull nginx") None (Some None))
                    "docker pull nginx" = None.
Proof. repeat split. Qed.

(** ** Retention *)

Section Retention.

Variables (repos : gmap string repo_handle) (current_time : Z).

(** On a state that holds a set, the pass keeps exactly the keys the
    loop does not put into [runs_to_remove]. *)
Lemma cleanup_set_spec (st : state_data) (s : gset string) (key : string) :
  executed_runs st = Some (ExecSet s) →
  key ∈ executed_set (_cleanup_old_executed_runs repos current_time st) ↔
  key ∈ s ∧ to_remove repos current_time key = false.
Proof.
  intros Hst. unfold _cleanup_old_executed_runs. rewrite Hst. simpl.
  case_bool_decide as Hnone.
  - unfold executed_set. rewrite Hst. simpl. split.
    + intros Hin. split; [done|].
      destruct (to_remove repos current_time key) eqn:Hrm; [|done].
      assert (key ∈ (∅ : gset string)) as Hempty; [|by apply not_elem_of_empty in Hempty].
      rewrite <- Hnone. by apply elem_of_filter.
    + by intros [? _].
  - unfold executed_set. simpl.
    rewrite elem_of_difference, elem_of_filter. split.
    + intros [Hin Hnot]. split; [done|].
      destruct (to_remove repos current_time key); [|done].
      by destruct Hnot.
    + intros [Hin Hkeep]. split; [done|]. rewrite Hkeep. by intros [? _].
Qed.

(** Whatever the state holds, a key the loop does not select stays. *)
Lemma cleanup_keeps (st : state_data) (key : string) :
  to_remove repos current_time key = false →
  key ∈ executed_set st →
  key ∈ executed_set (_cleanup_old_executed_runs repos current_time st).
Proof.
  intros Hkeep Hin. destruct (executed_runs st) as [[s|l]|] eqn:Hst.
  - apply (cleanup_set_spec st s key Hst). split; [|done].
    unfold executed_set in Hin. by rewrite Hst in Hin.
  - unfold _cleanup_old_executed_runs. rewrite Hst. by case_bool_decide.
  - unfold _cleanup_old_executed_runs. by rewrite Hst.
Qed.

(** A key with fewer than three fields is never selected. *)
Lemma to_remove_short_key (key : string) :
  (length (PyStr.split ":" key) < 3)%nat →
  to_remove repos current_time key = false.
Proof.
  unfold to_remove. destruct (PyStr.split ":" key) as [|p0 [|p1 [|p2 rest]]]; simpl;
    [done..|lia].
Qed.

End Retention.

(** X1. Retention of a well-formed key of a connected repository: the key
    stays exactly when its run can still be fetched and was updated at
    most seven days (604800 seconds) ago, or has no update time. The two
    id fields are integer literals of at most 4300 characters, the length
    up to which [int()] reads any literal. *)
Theorem retention_connected (repos : gmap string repo_handle) (current_time : Z)
    (st : state_data) (s : gset string) (key repo_name part1 part2 : string)
    (rest : list string) (workflow_id run_id : Z) (repo : repo_handle) :
  executed_runs st = Some (ExecSet s) →
  key ∈ s →
  PyStr.split ":" key = repo_name :: part1 :: part2 :: rest →
  PyStr.int part1 = Some workflow_id →
  PyStr.int part2 = Some run_id →
  (String.length part1 ≤ 4300)%nat →
  (String.length part2 ≤ 4300)%nat →
  repos !! repo_name = Some repo →
  key ∈ executed_set (_cleanup_old_executed_runs repos current_time st) ↔
  ∃ run, repo run_id = Some run ∧
         match updated_at run with
         | Some t => (current_time - t ≤ 604800 * 1000000)%Z
         | None => True
         end.
Proof.
  intros Hst Hin Hsplit Hwf Hrun _ _ Hrepo.
  rewrite (cleanup_set_spec repos current_time st s key Hst).
  unfold to_remove. rewrite Hsplit. cbv beta iota.
  rewrite Hwf. cbv beta iota. rewrite Hrun. cbv beta iota. rewrite Hrepo.
  destruct (repo run_id) as [run|].
  - destruct (updated_at run) as [t|] eqn:Ht.
    + unfold retention_window.
      destruct (Z.ltb_spec (604800 * 1000000) (current_time - t)); split.
      * by intros [_ ?].
      * intros (run' & [= <-] & Hage). rewrite Ht in Hage. lia.
      * intros _. exists run. rewrite Ht. split; [done | lia].
      * done.
    + split; [|done]. intros _. exists run. by rewrite Ht.
  - split; [by intros [_ ?] | by intros (run & ? & _)].
Qed.

Lemma retention_connected_witness :
  "acme/api:67890:22222" ∈
    executed_set (_cleanup_old_executed_runs Scenario.repos Scenario.cleanup_time
                    Scenario.old_state) ↔
  ∃ run, Scenario.acme_api 22222 = Some run ∧
         match updated_at run with
         | Some t => (Scenario.cleanup_time - t ≤ 604800 * 1000000)%Z
         | None => True
         end.
Proof.
  eapply (retention_connected Scenario.repos Scenario.cleanup_time Scenario.old_state
            _ "acme/api:67890:22222" "acme/api" "67890" "22222" [] 67890 22222
            Scenario.acme_api).
  - reflexivity.
  - vm_compute. reflexivity.
  - reflexivity.
  - reflexivity.
  - reflexivity.
  - vm_compute. lia.
  - vm_compute. lia.
  - reflexivity.
Defined.

(** X2. Retention of a key whose workflow id or run id is not a number: on a
    state that holds a set, the key is evicted. *)
Theorem retention_bad_number (repos : gmap string repo_handle) (current_time : Z)
    (st : state_data) (s : gset string) (key repo_name part1 part2 : string)
    (rest : list string) :
  executed_runs st = Some (ExecSet s) →
  PyStr.split ":" key = repo_name :: part1 :: part2 :: rest →
  PyStr.int part1 = None ∨ PyStr.int part2 = None →
  key ∉ executed_set (_cleanup_old_executed_runs repos current_time st).
Proof.
  intros Hst Hsplit Hbad.
  rewrite (cleanup_set_spec repos current_time st s key Hst).
  unfold to_remove. rewrite Hsplit. cbv beta iota. intros [_ Hkeep].
  destruct Hbad as [Hbad|Hbad]; rewrite Hbad in Hkeep; [done|].
  by destruct (PyStr.int part1).
Qed.

Lemma retention_bad_number_witness :
  "acme/api:sixty:12345" ∉
    executed_set (_cleanup_old_executed_runs Scenario.repos Scenario.cleanup_time
                    Scenario.old_state).
Proof.
  eapply (retention_bad_number Scenario.repos Scenario.cleanup_time Scenario.old_state
            _ "acme/api:sixty:12345" "acme/api" "sixty" "12345" []).
  - reflexivity.
  - reflexivity.
  - left. reflexivity.
Defined.

(** The pass on the example state: the run of eight days, the run that is
    gone and the key with a word for a number are evicted; the run of six
    days, the key of a repository that is not connected and the key
    without fields stay. *)
Example retention_pass_example :
  _cleanup_old_executed_runs Scenario.repos Scenario.cleanup_time Scenario.old_state
  = StateData (Some [])
      (Some (ExecSet {[ "acme/api:67890:22222"; "gone/repo:1:2"; "garbage" ]})).
Proof. vm_compute. reflexivity. Qed.

(** C7, at the failing input. A key that does not split into three
    fields cannot be parsed, and the retention pass keeps it. *)
Theorem retention_keeps_malformed_key :
  PyStr.split ":" "garbage" = ["garbage"] ∧
  "garbage" ∈ executed_set Scenario.old_state ∧
  "garbage" ∈
    executed_set (_cleanup_old_executed_runs Scenario.repos Scenario.cleanup_time
                    Scenario.old_state).
Proof.
  split; [reflexivity|]. split.
  - vm_compute. reflexivity.
  - apply cleanup_keeps.
    + apply to_remove_short_key. vm_compute. lia.
    + vm_compute. reflexivity.
Qed.

(** C10 (as the code has it). A key of the executed set that parses as a
    whole, that is, splits into at least three fields of which the second
    and the third are integer literals (of at most 4300 characters, the
    length up to which [int()] reads any literal), and whose repository is
    not among the connected ones is kept by the retention pass, whatever
    the current time. *)
Theorem retention_keeps_unconnected (repos : gmap string repo_handle)
    (current_time : Z) (st : state_data) (key repo_name part1 part2 : string)
    (rest : list string) (workflow_id run_id : Z) :
  key ∈ executed_set st →
  PyStr.split ":" key = repo_name :: part1 :: part2 :: rest →
  PyStr.int part1 = Some workflow_id →
  PyStr.int part2 = Some run_id →
  (String.length part1 ≤ 4300)%nat →
  (String.length part2 ≤ 4300)%nat →
  repos !! repo_name = None →
  key ∈ executed_set (_cleanup_old_executed_runs repos current_time st).
Proof.
  intros Hin Hsplit Hwf Hrun _ _ Hrepo. apply cleanup_keeps; [|done].
  unfold to_remove. rewrite Hsplit. cbv beta iota.
  rewrite Hwf. cbv beta iota. rewrite Hrun. cbv beta iota. by rewrite Hrepo.
Qed.

Lemma retention_keeps_unconnected_witness :
  "gone/repo:1:2" ∈
    executed_set (_cleanup_old_executed_runs Scenario.repos Scenario.cleanup_time
                    Scenario.old_state).
Proof.
  apply (retention_keeps_unconnected Scenario.repos Scenario.cleanup_time
           Scenario.old_state "gone/repo:1:2" "gone/repo" "1" "2" [] 1 2).
  - vm_compute. reflexivity.
  - reflexivity.
  - reflexivity.
  - reflexivity.
  - vm_compute. lia.
  - vm_compute. lia.
  - vm_compute. reflexivity.
Defined.

(** The repository field of [gone/repo:sixty:1] parses and the repository
    is not connected, yet the key is evicted: its workflow id is not a
    number, and a key that cannot be parsed is removed before the
    repository is looked at. *)
Lemma retention_unconnected_counterexample :
  PyStr.split ":" "gone/repo:sixty:1" = ["gone/repo"; "sixty"; "1"] ∧
  Scenario.repos !! "gone/repo" = None ∧
  "gone/repo:sixty:1" ∈ executed_set Scenario.stray_state ∧
  "gone/repo:sixty:1" ∉
    executed_set (_cleanup_old_executed_runs Scenario.repos Scenario.cleanup_time
                    Scenario.stray_state).
Proof.
  split; [reflexivity|]. split; [by vm_compute|]. split.
  - vm_compute. reflexivity.
  - vm_compute. discriminate.
Qed.

(** * Further properties of the monitor *)

(** ** The run key: encoding and decoding *)

Section StringFacts.

Lemma append_assoc (a b c : string) : (a +:+ b) +:+ c = a +:+ (b +:+ c).
Proof.
  induction a as [|x a IH]; [done|]. by rewrite !append_cons, IH.
Qed.

Lemma append_empty_r (s : string) : s +:+ "" = s.
Proof. induction s as [|x s IH]; [done|]. by rewrite append_cons, IH. Qed.

Lemma rev_app_spec (s t : string) :
  String.rev_app s t = String.rev s +:+ t.
Proof.
  revert t. induction s as [|x s IH]; intros t; [done|].
  unfold String.rev. simpl. rewrite (IH (String x t)), (IH (String x "")).
  by rewrite append_assoc, append_cons, append_nil.
Qed.

Lemma rev_cons (c : ascii) (s : string) :
  String.rev (String c s) = String.rev s +:+ String c "".
Proof. unfold String.rev at 1. simpl. apply rev_app_spec. Qed.

Lemma rev_append (s t : string) :
  String.rev (s +:+ t) = String.rev t +:+ String.rev s.
Proof.
  induction s as [|x s IH].
  - by rewrite append_nil, append_empty_r.
  - by rewrite append_cons, !rev_cons, IH, append_assoc.
Qed.

Lemma rev_involutive (s : string) : String.rev (String.rev s) = s.
Proof.
  induction s as [|x s IH]; [done|].
  by rewrite rev_cons, rev_append, IH.
Qed.

Lemma all_chars_append (p : ascii → bool) (s t : string) :
  all_chars p (s +:+ t) = (all_chars p s && all_chars p t)%bool.
Proof.
  induction s as [|x s IH]; [done|].
  rewrite append_cons. simpl. by rewrite IH, andb_assoc.
Qed.

Lemma all_chars_rev (p : ascii → bool) (s : string) :
  all_chars p (String.rev s) = all_chars p s.
Proof.
  induction s as [|x s IH]; [done|].
  rewrite rev_cons, all_chars_append, IH. simpl.
  rewrite andb_true_r. apply andb_comm.
Qed.

Lemma all_chars_impl (p q : ascii → bool) (s : string) :
  (∀ c, p c = true → q c = true) →
  all_chars p s = true → all_chars q s = true.
Proof.
  intros Hpq. induction s as [|x s IH]; simpl; [done|].
  rewrite !andb_true_iff. intros [Hx Hs]. auto.
Qed.

End StringFacts.

Section Splitting.

Variable sep : ascii.

Lemma split_aux_free (acc s : string) :
  free_of sep s = true →
  PyStr.split_aux sep acc s = [String.rev acc +:+ s].
Proof.
  unfold free_of. revert acc. induction s as [|c s IH]; intros acc; simpl.
  - by rewrite append_empty_r.
  - rewrite andb_true_iff, negb_true_iff. intros [-> Hs].
    rewrite (IH _ Hs), rev_cons, append_assoc. by rewrite append_cons, append_nil.
Qed.

Lemma split_aux_field (acc s t : string) :
  free_of sep s = true →
  PyStr.split_aux sep acc (s +:+ String sep t)
  = (String.rev acc +:+ s) :: PyStr.split_aux sep "" t.
Proof.
  unfold free_of. revert acc. induction s as [|c s IH]; intros acc.
  - intros _. rewrite append_nil, append_empty_r. simpl. by rewrite Ascii.eqb_refl.
  - simpl. rewrite andb_true_iff, negb_true_iff. intros [Hc Hs].
    rewrite Hc, (IH _ Hs), rev_cons, append_assoc.
    by rewrite append_cons, append_nil.
Qed.

End Splitting.

Section Decimal.

Lemma digits_value_append (acc : Z) (d e : string) :
  digits_value acc (d +:+ e) = digits_value (digits_value acc d) e.
Proof.
  revert acc. induction d as [|c d IH]; intros acc; [done|].
  rewrite append_cons. simpl. apply IH.
Qed.

(** On a string of digits [int] reads the number it stands for. *)
Lemma digits_aux_digits (prev : bool) (acc : Z) (d : string) :
  all_chars PyStr.is_digit d = true →
  d ≠ "" ∨ prev = true →
  PyStr.digits_aux prev acc d = Some (digits_value acc d).
Proof.
  revert prev acc. induction d as [|c d IH]; intros prev acc; simpl.
  - intros _ [?| ->]; done.
  - rewrite andb_true_iff. intros [-> Hd] _. apply IH; [done | by right].
Qed.

Lemma pretty_N_char_digit (m : N) :
  (m < 10)%N →
  PyStr.is_digit (pretty_N_char m) = true ∧
  PyStr.digit_val (pretty_N_char m) = Z.of_N m.
Proof.
  intros Hm.
  assert (m = 0 ∨ m = 1 ∨ m = 2 ∨ m = 3 ∨ m = 4 ∨ m = 5 ∨ m = 6 ∨ m = 7
          ∨ m = 8 ∨ m = 9)%N as Hcases by lia.
  repeat destruct Hcases as [->|Hcases]; [..|subst m]; by vm_compute.
Qed.

(** [pretty_N_go x s] puts the decimal digits of [x] in front of [s]. *)
Lemma pretty_N_go_digits (x : N) :
  ∃ d, (∀ s, pretty_N_go x s = d +:+ s) ∧
       all_chars PyStr.is_digit d = true ∧
       ((0 < x)%N → d ≠ "") ∧
       digits_value 0 d = Z.of_N x.
Proof.
  induction (N.lt_wf_0 x) as [x _ IH].
  assert (x = 0 ∨ 0 < x)%N as [->|Hpos] by lia.
  - exists "". split; [done|]. split; [done|]. split; [lia|done].
  - destruct (IH (x `div` 10)%N) as (d & Hgo & Hdig & _ & Hval).
    { by apply N.div_lt. }
    destruct (pretty_N_char_digit (x `mod` 10)%N) as [Hc Hv].
    { by apply N.mod_lt. }
    exists (d +:+ String (pretty_N_char (x `mod` 10)) "").
    split; [|split; [|split]].
    + intros s. rewrite pretty_N_go_step by done.
      by rewrite Hgo, append_assoc, append_cons, append_nil.
    + rewrite all_chars_append, Hdig. simpl. by rewrite Hc.
    + intros _. destruct d; discriminate.
    + rewrite digits_value_append, Hval. simpl. rewrite Hv.
      rewrite (N.div_mod x 10) at 3 by done. lia.
Qed.

(** The decimal text of a positive number: digits only, at least one. *)
Lemma pretty_positive_digits (p : positive) :
  all_chars PyStr.is_digit (pretty (Zpos p)) = true ∧
  pretty (Zpos p) ≠ "" ∧
  digits_value 0 (pretty (Zpos p)) = Zpos p.
Proof.
  destruct (pretty_N_go_digits (Npos p)) as (d & Hgo & Hdig & Hne & Hval).
  assert (Hp : pretty (Zpos p) = d).
  { unfold pretty, pretty_Z, pretty, pretty_positive, pretty, pretty_N.
    case_decide; [done|]. by rewrite Hgo, append_empty_r. }
  rewrite Hp. repeat split; [done | apply Hne; lia | by rewrite Hval].
Qed.

Lemma lstrip_id (c : ascii) (s : string) :
  PyStr.is_space c = false → PyStr.lstrip (String c s) = String c s.
Proof. intros Hc. simpl. by rewrite Hc. Qed.

(** A text without blanks is left as it is by [strip]. *)
Lemma strip_id (s : string) :
  all_chars (fun c => negb (PyStr.is_space c)) s = true → PyStr.strip s = s.
Proof.
  intros Hs. unfold PyStr.strip.
  assert (Hl : ∀ t, all_chars (fun c => negb (PyStr.is_space c)) t = true →
                    PyStr.lstrip t = t).
  { intros [|c t]; simpl; [done|].
    rewrite andb_true_iff, negb_true_iff. by intros [-> _]. }
  rewrite (Hl s Hs), Hl by by rewrite all_chars_rev.
  apply rev_involutive.
Qed.

Lemma digit_not_space (c : ascii) :
  PyStr.is_digit c = true → negb (PyStr.is_space c) = true.
Proof.
  destruct c as [[] [] [] [] [] [] [] []]; vm_compute; congruence.
Qed.

Lemma digit_not_sign (c : ascii) :
  PyStr.is_digit c = true → c ≠ "-"%char ∧ c ≠ "+"%char ∧ c ≠ ":"%char.
Proof.
  destruct c as [[] [] [] [] [] [] [] []]; vm_compute; intros H;
    repeat split; congruence.
Qed.

(** [int] reads back what [str] wrote: [int(str(z)) == z]. *)
Lemma int_pretty (z : Z) : PyStr.int (pretty z) = Some z.
Proof.
  destruct z as [|p|p].
  - by vm_compute.
  - destruct (pretty_positive_digits p) as (Hdig & Hne & Hval).
    unfold PyStr.int. rewrite strip_id
      by (eapply all_chars_impl; [apply digit_not_space | done]).
    destruct (pretty (Zpos p)) as [|c d] eqn:Hp; [done|].
    assert (Hc : PyStr.is_digit c = true)
      by (simpl in Hdig; by apply andb_true_iff in Hdig as [? _]).
    destruct (digit_not_sign c Hc) as (Hminus & Hplus & _).
    rewrite <- Hval.
    transitivity (PyStr.digits_aux false 0 (String c d));
      [|apply digits_aux_digits; [done | by left]].
    destruct c as [[] [] [] [] [] [] [] []]; try reflexivity; congruence.
  - destruct (pretty_positive_digits p) as (Hdig & Hne & Hval).
    change (pretty (Zneg p)) with ("-" +:+ pretty (Zpos p)).
    rewrite append_cons, append_nil.
    unfold PyStr.int. rewrite strip_id.
    + rewrite digits_aux_digits by (done || by left). simpl. by rewrite Hval.
    + simpl. eapply all_chars_impl; [apply digit_not_space | done].
Qed.

(** The decimal text of a number holds no colon. *)
Lemma pretty_free_of_colon (z : Z) : free_of ":" (pretty z) = true.
Proof.
  assert (Hd : ∀ d, all_chars PyStr.is_digit d = true → free_of ":" d = true).
  { intros d. apply all_chars_impl. intros c Hc.
    destruct (digit_not_sign c Hc) as (_ & _ & Hcolon).
    apply negb_true_iff, Ascii.eqb_neq. done. }
  destruct z as [|p|p].
  - by vm_compute.
  - apply Hd, pretty_positive_digits.
  - change (pretty (Zneg p)) with ("-" +:+ pretty (Zpos p)).
    rewrite append_cons, append_nil. unfold free_of. simpl.
    apply (Hd _ (proj1 (pretty_positive_digits p))).
Qed.

End Decimal.

Lemma run_key_fields (repo_name : string) (wf : workflow) (run : workflow_run) :
  free_of ":" repo_name = true →
  PyStr.split ":" (run_key repo_name wf run)
  = [repo_name; pretty (wf_id wf); pretty (run_id run)].
Proof.
  intros Hrepo. unfold PyStr.split, run_key.
  rewrite append_cons, append_nil, (split_aux_field ":" "" repo_name) by done.
  rewrite append_cons, append_nil, (split_aux_field ":" "") by apply pretty_free_of_colon.
  by rewrite (split_aux_free ":" "") by apply pretty_free_of_colon.
Qed.

(** X3. Decoding a run key gives back what was encoded: for a repository
    name without a colon, the key splits at its colons into the name, the
    workflow id and the run id, and [int] reads the two ids back. *)
Theorem run_key_round_trip (repo_name : string) (wf : workflow) (run : workflow_run) :
  free_of ":" repo_name = true →
  ∃ part1 part2,
    PyStr.split ":" (run_key repo_name wf run) = [repo_name; part1; part2] ∧
    PyStr.int part1 = Some (wf_id wf) ∧
    PyStr.int part2 = Some (run_id run).
Proof.
  intros Hrepo. exists (pretty (wf_id wf)), (pretty (run_id run)).
  split; [by apply run_key_fields|]. split; apply int_pretty.
Qed.

Lemma run_key_round_trip_witness :
  ∃ part1 part2,
    PyStr.split ":" (run_key "acme/api" Scenario.ci Scenario.run42)
    = ["acme/api"; part1; part2] ∧
    PyStr.int part1 = Some 67890 ∧
    PyStr.int part2 = Some 12345.
Proof.
  apply (run_key_round_trip "acme/api" Scenario.ci Scenario.run42).
  vm_compute. reflexivity.
Defined.

(** X4. Two runs have the same run key only when they agree on the
    repository, the workflow id and the run id (repository names without
    a colon): deduplication never takes one run for another. *)
Theorem run_key_injective (repo1 repo2 : string) (wf1 wf2 : workflow)
    (run1 run2 : workflow_run) :
  free_of ":" repo1 = true →
  free_of ":" repo2 = true →
  run_key repo1 wf1 run1 = run_key repo2 wf2 run2 →
  repo1 = repo2 ∧ wf_id wf1 = wf_id wf2 ∧ run_id run1 = run_id run2.
Proof.
  intros H1 H2 Hkey.
  pose proof (run_key_fields repo1 wf1 run1 H1) as Hf1.
  rewrite Hkey, (run_key_fields repo2 wf2 run2 H2) in Hf1.
  injection Hf1 as Hrepo Hwf Hrun.
  split; [done|]. split; by apply (inj pretty).
Qed.

Lemma run_key_injective_witness :
  "acme/api" = "acme/api" ∧
  wf_id Scenario.ci = wf_id (Workflow 67890 "Continuous integration") ∧
  run_id Scenario.run42 = run_id Scenario.run42.
Proof.
  apply (run_key_injective "acme/api" "acme/api" Scenario.ci
           (Workflow 67890 "Continuous integration") Scenario.run42 Scenario.run42).
  - vm_compute. reflexivity.
  - vm_compute. reflexivity.
  - vm_compute. reflexivity.
Defined.

(** The loop body of the retention pass on an encoded key. *)
Lemma to_remove_run_key (repos : gmap string repo_handle) (current_time : Z)
    (repo_name : string) (wf : workflow) (run : workflow_run) :
  free_of ":" repo_name = true →
  to_remove repos current_time (run_key repo_name wf run) =
  match repos !! repo_name with
  | Some repo =>
      match repo (run_id run) with
      | Some fetched =>
          match updated_at fetched with
          | Some t => Z.ltb retention_window (current_time - t)
          | None => false
          end
      | None => true
      end
  | None => false
  end.
Proof.
  intros Hrepo. unfold to_remove. rewrite run_key_fields by done.
  cbv beta iota. by rewrite !int_pretty.
Qed.

(** X5. What retention does with a key that dispatch wrote: the key of a
    marked run stays when its repository is not connected; when it is
    connected, the key stays exactly when the run can still be fetched
    and was updated at most seven days ago (or has no update time). *)
Theorem dispatched_key_retention (repos : gmap string repo_handle)
    (current_time : Z) (st : state_data) (s : gset string)
    (repo_name : string) (wf : workflow) (run : workflow_run) :
  free_of ":" repo_name = true →
  executed_runs st = Some (ExecSet s) →
  run_key repo_name wf run ∈ s →
  run_key repo_name wf run ∈
    executed_set (_cleanup_old_executed_runs repos current_time st) ↔
  match repos !! repo_name with
  | Some repo =>
      ∃ fetched, repo (run_id run) = Some fetched ∧
                 match updated_at fetched with
                 | Some t => (current_time - t ≤ 604800 * 1000000)%Z
                 | None => True
                 end
  | None => True
  end.
Proof.
  intros Hrepo Hst Hin.
  rewrite (cleanup_set_spec repos current_time st s _ Hst), to_remove_run_key by done.
  destruct (repos !! repo_name) as [repo|]; [|done].
  destruct (repo (run_id run)) as [fetched|].
  - destruct (updated_at fetched) as [t|] eqn:Ht.
    + unfold retention_window.
      destruct (Z.ltb_spec (604800 * 1000000) (current_time - t)); split.
      * by intros [_ ?].
      * intros (f & [= <-] & Hage). rewrite Ht in Hage. lia.
      * intros _. exists fetched. rewrite Ht. split; [done | lia].
      * done.
    + split; [|done]. intros _. exists fetched. by rewrite Ht.
  - split; [by intros [_ ?] | by intros (f & ? & _)].
Qed.

Lemma dispatched_key_retention_witness :
  run_key "acme/api" Scenario.ci Scenario.run42 ∈
    executed_set (_cleanup_old_executed_runs Scenario.repos Scenario.cleanup_time
                    Scenario.old_state) ↔
  match Scenario.repos !! "acme/api" with
  | Some repo =>
      ∃ fetched, repo (run_id Scenario.run42) = Some fetched ∧
                 match updated_at fetched with
                 | Some t => (Scenario.cleanup_time - t ≤ 604800 * 1000000)%Z
                 | None => True
                 end
  | None => True
  end.
Proof.
  eapply (dispatched_key_retention Scenario.repos Scenario.cleanup_time
            Scenario.old_state _ "acme/api" Scenario.ci Scenario.run42).
  - vm_compute. reflexivity.
  - reflexivity.
  - vm_compute. reflexivity.
Defined.

(** ** Dispatch of one run *)

Section DispatchOne.

Variables (cfg : config) (w : world).

Lemma run_command_calls (env_vars : gmap string string) (key : string)
    (cmd : cmd_config) :
  logging_commands cfg ≠ LogInvalid →
  (run_command cfg w env_vars key cmd).2 = option_list (planned_call w key cmd).
Proof.
  intros Hlog. unfold run_command, planned_call.
  destruct (default "" (cc_command cmd)) as [|a command]; [done|].
  unfold _log_command_details, _execute_single_command, read_command_logging.
  destruct (logging_commands cfg); [| |done];
    by destruct (try_subprocess_run _ _ _ _ _) as [[r|]|e].
Qed.

Lemma run_commands_calls (env_vars : gmap string string) (key : string)
    (cmds : list cmd_config) (flag : bool) :
  logging_commands cfg ≠ LogInvalid →
  (run_commands cfg w env_vars key cmds flag).2 = omap (planned_call w key) cmds.
Proof.
  intros Hlog.
  revert flag. induction cmds as [|cmd rest IH]; intros flag; simpl; [done|].
  pose proof (run_command_calls env_vars key cmd Hlog) as Hone.
  destruct (run_command cfg w env_vars key cmd) as [ok calls].
  specialize (IH (flag || ok)%bool).
  destruct (run_commands cfg w env_vars key rest (flag || ok)) as [d calls'].
  simpl in *. rewrite Hone, IH. by destruct (planned_call w key cmd).
Qed.

(** With a logging setting that cannot be read every round of the loop
    ends in its [except] clause. *)
Lemma run_commands_unreadable (env_vars : gmap string string) (key : string)
    (cmds : list cmd_config) (flag : bool) :
  logging_commands cfg = LogInvalid →
  run_commands cfg w env_vars key cmds flag = (flag, []).
Proof.
  intros Hlog.
  revert flag. induction cmds as [|cmd rest IH]; intros flag; simpl; [done|].
  assert (Hone : run_command cfg w env_vars key cmd = (false, [])).
  { unfold run_command, _log_command_details, read_command_logging.
    rewrite Hlog. by destruct (default "" (cc_command cmd)). }
  rewrite Hone, IH. by rewrite orb_false_r.
Qed.

(** A success flag that is raised comes with a runner call. *)
Lemma run_commands_flag (env_vars : gmap string string) (key : string)
    (cmds : list cmd_config) (flag : bool) :
  (run_commands cfg w env_vars key cmds flag).1 = true →
  flag = true ∨ (run_commands cfg w env_vars key cmds flag).2 ≠ [].
Proof.
  revert flag. induction cmds as [|cmd rest IH]; intros flag; simpl; [by left|].
  destruct (run_command cfg w env_vars key cmd) as [ok calls] eqn:Hone.
  specialize (IH (flag || ok)%bool).
  destruct (run_commands cfg w env_vars key rest (flag || ok)) as [d calls'].
  simpl in *. intros Hd. destruct (IH Hd) as [Hflag|Hcalls].
  - apply orb_true_iff in Hflag as [?|Hok]; [by left|]. right.
    unfold run_command in Hone.
    destruct (default "" (cc_command cmd)); [by simplify_eq|].
    destruct (_log_command_details cfg); [|by simplify_eq].
    destruct (_execute_single_command _ _ _ _ _ _) as [[r|]|e]; by simplify_eq.
  - right. by destruct calls.
Qed.

End DispatchOne.

(** X6. When [logging.commands] is missing or a mapping, the runner
    calls made for one run are exactly one call per resolved command with
    a non-empty command text, in the order of the list and with the
    command's own working directory and timeout: a command that fails,
    times out or cannot be started does not keep the later commands from
    running. When [logging.commands] cannot be read, every round ends in
    its error handler: no runner call is made and the run is not
    marked. *)
Theorem dispatch_runs_every_command (cfg : config) (w : world) (st : state_data)
    (repo_name : string) (wf : workflow) (run : workflow_run) :
  (logging_commands cfg ≠ LogInvalid →
   (_execute_commands cfg w st repo_name wf run).2
   = omap (planned_call w (run_key repo_name wf run))
          (commands_to_execute cfg repo_name run)) ∧
  (logging_commands cfg = LogInvalid →
   _execute_commands cfg w st repo_name wf run = (st, [])).
Proof.
  split; intros Hlog; unfold _execute_commands;
    (destruct (commands_to_execute cfg repo_name run) as [|cmd cmds] eqn:Hcmds;
       [done|]);
    simpl is_empty; cbv iota.
  - pose proof (run_commands_calls cfg w
                  (_prepare_command_environment w repo_name wf run)
                  (run_key repo_name wf run) (cmd :: cmds) false Hlog) as Hcalls.
    destruct (run_commands _ _ _ _ _ _) as [flag calls]. simpl in Hcalls.
    by destruct flag.
  - by rewrite run_commands_unreadable.
Qed.

Lemma dispatch_runs_every_command_witness :
  (_execute_commands Scenario.cfg_failing Scenario.w empty_state "acme/api"
     Scenario.ci Scenario.run42).2
  = omap (planned_call Scenario.w (run_key "acme/api" Scenario.ci Scenario.run42))
         (commands_to_execute Scenario.cfg_failing "acme/api" Scenario.run42) ∧
  _execute_commands Scenario.cfg_null_logging Scenario.w empty_state "acme/api"
    Scenario.ci Scenario.run42 = (empty_state, []).
Proof.
  split.
  - apply (proj1 (dispatch_runs_every_command Scenario.cfg_failing Scenario.w
                    empty_state "acme/api" Scenario.ci Scenario.run42)).
    vm_compute. discriminate.
  - apply (proj2 (dispatch_runs_every_command Scenario.cfg_null_logging Scenario.w
                    empty_state "acme/api" Scenario.ci Scenario.run42)).
    reflexivity.
Defined.

(** X7. Dispatching one run touches no other run's record: every key but
    the run's own is in the executed set afterwards exactly when it was
    before, the run's own key is never taken out, and the
    [last_checked_runs] entry is left alone. *)
Theorem dispatch_frame (cfg : config) (w : world) (st : state_data)
    (repo_name : string) (wf : workflow) (run : workflow_run) :
  (∀ key, key ≠ run_key repo_name wf run →
     key ∈ executed_set (_execute_commands cfg w st repo_name wf run).1 ↔
     key ∈ executed_set st) ∧
  (run_key repo_name wf run ∈ executed_set st →
   run_key repo_name wf run ∈
     executed_set (_execute_commands cfg w st repo_name wf run).1) ∧
  last_checked_runs (_execute_commands cfg w st repo_name wf run).1
  = last_checked_runs st.
Proof.
  split; [|split].
  - intros key Hne. unfold _execute_commands.
    destruct (is_empty (commands_to_execute cfg repo_name run)); [done|].
    destruct (run_commands _ _ _ _ _ _) as [[] calls]; simpl; [|done].
    unfold executed_set at 1, mark_executed; simpl.
    rewrite elem_of_union, elem_of_singleton. tauto.
  - apply execute_commands_mono.
  - unfold _execute_commands.
    destruct (is_empty (commands_to_execute cfg repo_name run)); [done|].
    by destruct (run_commands _ _ _ _ _ _) as [[] calls].
Qed.

(** The dispatch of the witness marks its run: it adds the key of run 42
    to a state that holds the key of another run. *)
Example dispatch_frame_marks :
  _execute_commands Scenario.cfg Scenario.w Scenario.other_run_state
    "acme/api" Scenario.ci Scenario.run42
  = (StateData (Some [])
       (Some (ExecSet {[ "acme/api:67890:12345"; "acme/api:67890:22222" ]})),
     [Invocation "acme/api:67890:12345" "echo deployed" "/srv/api" (Some 120)]).
Proof. vm_compute. reflexivity. Qed.

Lemma dispatch_frame_witness :
  "acme/api:67890:22222" ∈
    executed_set (_execute_commands Scenario.cfg Scenario.w Scenario.other_run_state
                    "acme/api" Scenario.ci Scenario.run42).1 ↔
  "acme/api:67890:22222" ∈ executed_set Scenario.other_run_state.
Proof.
  apply (proj1 (dispatch_frame Scenario.cfg Scenario.w Scenario.other_run_state
                  "acme/api" Scenario.ci Scenario.run42)).
  vm_compute. discriminate.
Defined.

(** X8. The execution map shadows the legacy list: when the map is not
    empty and has none of the four entries for the repository and branch
    of a run, nothing is run and nothing is marked, whatever
    [on_success] holds. *)
Theorem unmapped_run_runs_nothing (cfg : config) (w : world) (st : state_data)
    (repo_name : string) (wf : workflow) (run : workflow_run) :
  execution_map cfg ≠ ∅ →
  first_match (execution_map cfg) repo_name (branch_or_unknown (head_branch run))
  = None →
  _execute_commands cfg w st repo_name wf run = (st, []).
Proof.
  intros Hmap Hnone.
  assert (Hcmds : commands_to_execute cfg repo_name run = []).
  { unfold commands_to_execute. rewrite bool_decide_eq_true_2 by done.
    rewrite resolve_repo_commands_cases. unfold first_match in Hnone.
    destruct (repo_candidate _ _ _); [done|]. simpl. by rewrite Hnone. }
  unfold _execute_commands. by rewrite Hcmds.
Qed.

Lemma unmapped_run_runs_nothing_witness :
  _execute_commands
    (Config [] (execution_map Scenario.cfg_other_branch)
            (command_definitions Scenario.cfg_other_branch) [Scenario.deploy]
            LogAbsent)
    Scenario.w empty_state "acme/api" Scenario.ci Scenario.run42
  = (empty_state, []).
Proof.
  apply unmapped_run_runs_nothing.
  - vm_compute. discriminate.
  - vm_compute. reflexivity.
Defined.

(** ** The monitoring cycle *)

Section Cycle.

Variables (cfg : config) (w : world) (clock : string → workflow → Z).

(** What one dispatch may add to the executed set comes with a call. *)
Lemma execute_commands_marks (st : state_data) (repo_name : string)
    (wf : workflow) (run : workflow_run) (key : string) :
  key ∈ executed_set (_execute_commands cfg w st repo_name wf run).1 →
  key ∈ executed_set st ∨
  ∃ c, c ∈ (_execute_commands cfg w st repo_name wf run).2 ∧ inv_run_key c = key.
Proof.
  unfold _execute_commands.
  destruct (is_empty (commands_to_execute cfg repo_name run)); [by left|].
  pose proof (run_commands_flag cfg w (_prepare_command_environment w repo_name wf run)
                (run_key repo_name wf run) (commands_to_execute cfg repo_name run)
                false) as Hflag.
  pose proof (run_commands_key cfg w (_prepare_command_environment w repo_name wf run)
                (run_key repo_name wf run) (commands_to_execute cfg repo_name run)
                false) as Hkey.
  destruct (run_commands _ _ _ _ _ _) as [[] calls]; simpl in *; [|by left].
  unfold executed_set at 1, mark_executed; simpl.
  rewrite elem_of_union, elem_of_singleton. intros [->|Hin]; [|by left].
  right. destruct (Hflag eq_refl) as [?|Hne]; [done|].
  destruct calls as [|c calls]; [done|].
  exists c. split; [by left | apply Hkey; by left].
Qed.

Lemma dispatch_runs_marks (st : state_data) (repo_name : string) (wf : workflow)
    (new_runs : list workflow_run) (key : string) :
  key ∈ executed_set (dispatch_runs cfg w st repo_name wf new_runs).1 →
  key ∈ executed_set st ∨
  ∃ c, c ∈ (dispatch_runs cfg w st repo_name wf new_runs).2 ∧ inv_run_key c = key.
Proof.
  revert st. induction new_runs as [|run rest IH]; intros st; simpl; [by left|].
  pose proof (execute_commands_marks st repo_name wf run key) as Hone.
  destruct (_execute_commands cfg w st repo_name wf run) as [st1 calls].
  specialize (IH st1).
  destruct (dispatch_runs cfg w st1 repo_name wf rest) as [st2 calls'].
  simpl in *. intros Hin.
  destruct (IH Hin) as [Hin1|(c & Hc & Hk)].
  - destruct (Hone Hin1) as [?|(c & Hc & Hk)]; [by left|].
    right. exists c. split; [apply elem_of_app; by left | done].
  - right. exists c. split; [apply elem_of_app; by right | done].
Qed.

(** The calls of a scan of one repository, traced to the detection that
    led to them. *)
Lemma monitor_repository_calls (st : state_data) (repo_name : string)
    (workflows : list workflow_info) (c : invocation) :
  c ∈ (monitor_repository cfg w clock st repo_name workflows).2 →
  ∃ wi st_i run,
    wi ∈ workflows ∧ executed_set st ⊆ executed_set st_i ∧
    run ∈ _get_new_successful_runs cfg st_i (clock repo_name (wi_workflow wi))
            repo_name (wi_workflow wi) (wi_runs wi) ∧
    inv_run_key c = run_key repo_name (wi_workflow wi) run.
Proof.
  revert st. induction workflows as [|wi rest IH]; intros st; simpl.
  - by intros ?%elem_of_nil.
  - pose proof (dispatch_runs_key cfg w st repo_name (wi_workflow wi)
                  (_get_new_successful_runs cfg st (clock repo_name (wi_workflow wi))
                     repo_name (wi_workflow wi) (wi_runs wi)) c) as Hone.
    pose proof (λ key, dispatch_runs_mono cfg w st repo_name (wi_workflow wi)
                  (_get_new_successful_runs cfg st (clock repo_name (wi_workflow wi))
                     repo_name (wi_workflow wi) (wi_runs wi)) key) as Hmono.
    unfold monitor_workflow.
    destruct (dispatch_runs cfg w st repo_name (wi_workflow wi) _) as [st1 calls].
    specialize (IH st1).
    destruct (monitor_repository cfg w clock st1 repo_name rest) as [st2 calls'].
    simpl in *. rewrite elem_of_app. intros [Hc|Hc].
    + destruct (Hone Hc) as (run & Hrun & Hk).
      exists wi, st, run. split; [by left|]. done.
    + destruct (IH Hc) as (wi' & st_i & run & Hwi & Hsub & Hrun & Hk).
      exists wi', st_i, run. split; [by right|]. split; [|done].
      intros key Hkey. apply Hsub, Hmono, Hkey.
Qed.

Lemma monitor_repository_mono (st : state_data) (repo_name : string)
    (workflows : list workflow_info) :
  executed_set st ⊆ executed_set (monitor_repository cfg w clock st repo_name workflows).1.
Proof.
  revert st. induction workflows as [|wi rest IH]; intros st; simpl; [done|].
  pose proof (λ key, dispatch_runs_mono cfg w st repo_name (wi_workflow wi)
                (_get_new_successful_runs cfg st (clock repo_name (wi_workflow wi))
                   repo_name (wi_workflow wi) (wi_runs wi)) key) as Hmono.
  unfold monitor_workflow.
  destruct (dispatch_runs cfg w st repo_name (wi_workflow wi) _) as [st1 calls].
  specialize (IH st1).
  destruct (monitor_repository cfg w clock st1 repo_name rest) as [st2 calls'].
  simpl in *. intros key Hkey. apply IH, Hmono, Hkey.
Qed.

Lemma monitor_repository_marks (st : state_data) (repo_name : string)
    (workflows : list workflow_info) (key : string) :
  key ∈ executed_set (monitor_repository cfg w clock st repo_name workflows).1 →
  key ∈ executed_set st ∨
  ∃ c, c ∈ (monitor_repository cfg w clock st repo_name workflows).2 ∧
       inv_run_key c = key.
Proof.
  revert st. induction workflows as [|wi rest IH]; intros st; simpl; [by left|].
  pose proof (dispatch_runs_marks st repo_name (wi_workflow wi)
                (_get_new_successful_runs cfg st (clock repo_name (wi_workflow wi))
                   repo_name (wi_workflow wi) (wi_runs wi)) key) as Hone.
  unfold monitor_workflow.
  destruct (dispatch_runs cfg w st repo_name (wi_workflow wi) _) as [st1 calls].
  specialize (IH st1).
  destruct (monitor_repository cfg w clock st1 repo_name rest) as [st2 calls'].
  simpl in *. intros Hin.
  destruct (IH Hin) as [Hin1|(c & Hc & Hk)].
  - destruct (Hone Hin1) as [?|(c & Hc & Hk)]; [by left|].
    right. exists c. split; [apply elem_of_app; by left | done].
  - right. exists c. split; [apply elem_of_app; by right | done].
Qed.

Lemma monitor_repositories_calls (st : state_data)
    (workflows_by_repo : list (string * list workflow_info)) (c : invocation) :
  c ∈ (monitor_repositories cfg w clock st workflows_by_repo).2 →
  ∃ repo_name workflows wi st_i run,
    (repo_name, workflows) ∈ workflows_by_repo ∧
    wi ∈ workflows ∧ executed_set st ⊆ executed_set st_i ∧
    run ∈ _get_new_successful_runs cfg st_i (clock repo_name (wi_workflow wi))
            repo_name (wi_workflow wi) (wi_runs wi) ∧
    inv_run_key c = run_key repo_name (wi_workflow wi) run.
Proof.
  revert st. induction workflows_by_repo as [|[repo_name workflows] rest IH];
    intros st; simpl.
  - by intros ?%elem_of_nil.
  - pose proof (monitor_repository_calls st repo_name workflows c) as Hone.
    pose proof (monitor_repository_mono st repo_name workflows) as Hmono.
    destruct (monitor_repository cfg w clock st repo_name workflows) as [st1 calls].
    specialize (IH st1).
    destruct (monitor_repositories cfg w clock st1 rest) as [st2 calls'].
    simpl in *. rewrite elem_of_app. intros [Hc|Hc].
    + destruct (Hone Hc) as (wi & st_i & run & Hwi & Hsub & Hrun & Hk).
      exists repo_name, workflows, wi, st_i, run. split; [by left|]. done.
    + destruct (IH Hc) as (name & wis & wi & st_i & run & Hin & Hwi & Hsub & Hrun & Hk).
      exists name, wis, wi, st_i, run. split; [by right|].
      split; [done|]. split; [|done]. by etrans.
Qed.

Lemma monitor_repositories_mono (st : state_data)
    (workflows_by_repo : list (string * list workflow_info)) :
  executed_set st ⊆ executed_set (monitor_repositories cfg w clock st workflows_by_repo).1.
Proof.
  revert st. induction workflows_by_repo as [|[repo_name workflows] rest IH];
    intros st; simpl; [done|].
  pose proof (monitor_repository_mono st repo_name workflows) as Hmono.
  destruct (monitor_repository cfg w clock st repo_name workflows) as [st1 calls].
  specialize (IH st1).
  destruct (monitor_repositories cfg w clock st1 rest) as [st2 calls'].
  simpl in *. by etrans.
Qed.

Lemma monitor_repositories_marks (st : state_data)
    (workflows_by_repo : list (string * list workflow_info)) (key : string) :
  key ∈ executed_set (monitor_repositories cfg w clock st workflows_by_repo).1 →
  key ∈ executed_set st ∨
  ∃ c, c ∈ (monitor_repositories cfg w clock st workflows_by_repo).2 ∧
       inv_run_key c = key.
Proof.
  revert st. induction workflows_by_repo as [|[repo_name workflows] rest IH];
    intros st; simpl; [by left|].
  pose proof (monitor_repository_marks st repo_name workflows key) as Hone.
  destruct (monitor_repository cfg w clock st repo_name workflows) as [st1 calls].
  specialize (IH st1).
  destruct (monitor_repositories cfg w clock st1 rest) as [st2 calls'].
  simpl in *. intros Hin.
  destruct (IH Hin) as [Hin1|(c & Hc & Hk)].
  - destruct (Hone Hin1) as [?|(c & Hc & Hk)]; [by left|].
    right. exists c. split; [apply elem_of_app; by left | done].
  - right. exists c. split; [apply elem_of_app; by right | done].
Qed.

End Cycle.

Lemma load_after_save (st : state_data) (fs : filesystem) :
  fs_writable fs = true →
  executed_set (_load_state (_save_state st fs)) = executed_set st.
Proof.
  intros Hw. unfold _save_state, _load_state, state_to_save, executed_set.
  rewrite Hw. simpl. destruct (executed_runs st) as [[s|l]|]; simpl; [|done..].
  apply list_to_set_elements_L.
Qed.

Lemma in_workflows_to_monitor (workflows_config : list string)
    (repos : list (string * github_repo)) (repo_name : string)
    (workflows : list workflow_info) :
  (repo_name, workflows) ∈ _get_workflows_to_monitor workflows_config repos →
  ∃ repo, (repo_name, repo) ∈ repos ∧ workflows = workflows_of workflows_config repo.
Proof.
  unfold _get_workflows_to_monitor. rewrite list_elem_of_fmap.
  intros ([name repo] & [= -> ->] & Hin). by exists repo.
Qed.

(** X9. A cycle runs commands only for eligible runs: every runner call
    of [_monitor_workflows] belongs to a run that a monitored workflow of
    a connected repository lists, that concluded with success, whose key
    was not in the executed set when the cycle began, whose branch is
    monitored and that was updated at most 300 seconds before its
    workflow was looked at. *)
Theorem cycle_dispatches_only_eligible (cfg : config) (workflows_config : list string)
    (w : world) (clock : string → workflow → Z)
    (repos : list (string * github_repo)) (st : state_data) (fs : filesystem)
    (c : invocation) :
  c ∈ (_monitor_workflows cfg workflows_config w clock repos st fs).2 →
  ∃ repo_name repo wi runs run,
    (repo_name, repo) ∈ repos ∧
    wi ∈ workflows_of workflows_config repo ∧
    wi_runs wi = Some runs ∧ run ∈ runs ∧
    inv_run_key c = run_key repo_name (wi_workflow wi) run ∧
    conclusion run = Some "success" ∧
    (run_key repo_name (wi_workflow wi) run ∉ executed_set st) ∧
    _should_monitor_branch cfg (head_branch run) = true ∧
    match updated_at run with
    | Some t => (clock repo_name (wi_workflow wi) - t ≤ 300 * 1000000)%Z
    | None => True
    end.
Proof.
  unfold _monitor_workflows.
  destruct (is_empty (_get_workflows_to_monitor workflows_config repos));
    [by intros ?%elem_of_nil|].
  pose proof (monitor_repositories_calls cfg w clock st
                (_get_workflows_to_monitor workflows_config repos) c) as Hcalls.
  destruct (monitor_repositories _ _ _ _ _) as [st' calls]. simpl in *.
  intros Hc. destruct (Hcalls Hc) as (name & wis & wi & st_i & run & Hin & Hwi & Hsub & Hrun & Hk).
  apply in_workflows_to_monitor in Hin as (repo & Hrepo & ->).
  destruct (wi_runs wi) as [runs|] eqn:Hruns; simpl in Hrun;
    [|by apply elem_of_nil in Hrun].
  apply list_elem_of_filter in Hrun as [Hnew Hrun].
  apply list_elem_of_filter in Hrun as [Hok Hrun].
  apply is_new_run_spec in Hnew as (Hfresh & Hbranch & Hage).
  exists name, repo, wi, runs, run. repeat split; try done.
  intros Hin. apply Hfresh, Hsub, Hin.
Qed.

Lemma cycle_dispatches_only_eligible_witness :
  ∃ repo_name repo wi runs run,
    (repo_name, repo) ∈ Fleet.repos ∧
    wi ∈ workflows_of [] repo ∧
    wi_runs wi = Some runs ∧ run ∈ runs ∧
    inv_run_key Fleet.the_call = run_key repo_name (wi_workflow wi) run ∧
    conclusion run = Some "success" ∧
    (run_key repo_name (wi_workflow wi) run ∉ executed_set empty_state) ∧
    _should_monitor_branch Scenario.cfg (head_branch run) = true ∧
    match updated_at run with
    | Some t => (Fleet.clock repo_name (wi_workflow wi) - t ≤ 300 * 1000000)%Z
    | None => True
    end.
Proof.
  apply (cycle_dispatches_only_eligible Scenario.cfg [] Scenario.w Fleet.clock
           Fleet.repos empty_state Fleet.disk Fleet.the_call).
  vm_compute. left.
Defined.

(** X10. A cycle never forgets and never marks without running: every
    key of the executed set is still there after [_monitor_workflows],
    and every key that is new after the cycle is the key of a runner call
    made in it. *)
Theorem cycle_marks_only_dispatched (cfg : config) (workflows_config : list string)
    (w : world) (clock : string → workflow → Z)
    (repos : list (string * github_repo)) (st : state_data) (fs : filesystem) :
  executed_set st ⊆
    executed_set (_monitor_workflows cfg workflows_config w clock repos st fs).1.1 ∧
  ∀ key,
    key ∈ executed_set (_monitor_workflows cfg workflows_config w clock repos st fs).1.1 →
    key ∈ executed_set st ∨
    ∃ c, c ∈ (_monitor_workflows cfg workflows_config w clock repos st fs).2 ∧
         inv_run_key c = key.
Proof.
  unfold _monitor_workflows.
  destruct (is_empty (_get_workflows_to_monitor workflows_config repos));
    [split; [done | by left]|].
  pose proof (monitor_repositories_mono cfg w clock st
                (_get_workflows_to_monitor workflows_config repos)) as Hmono.
  pose proof (monitor_repositories_marks cfg w clock st
                (_get_workflows_to_monitor workflows_config repos)) as Hmarks.
  destruct (monitor_repositories _ _ _ _ _) as [st' calls]. simpl in *.
  split; [done | exact Hmarks].
Qed.

Lemma cycle_marks_only_dispatched_witness :
  "acme/api:67890:12345" ∈ executed_set empty_state ∨
  ∃ c, c ∈ (_monitor_workflows Scenario.cfg [] Scenario.w Fleet.clock Fleet.repos
              empty_state Fleet.disk).2 ∧
       inv_run_key c = "acme/api:67890:12345".
Proof.
  apply (proj2 (cycle_marks_only_dispatched Scenario.cfg [] Scenario.w Fleet.clock
                  Fleet.repos empty_state Fleet.disk) "acme/api:67890:12345").
  vm_compute. reflexivity.
Defined.

(** X11. At-most-once survives a restart: after a cycle over at least one
    connected repository with a writable state file, the state loaded
    back from the file has the executed set the cycle ended with, so a
    run marked in the cycle is not detected again from the reloaded
    state. *)
Theorem cycle_then_restart (cfg : config) (workflows_config : list string)
    (w : world) (clock : string → workflow → Z)
    (repos : list (string * github_repo)) (st : state_data) (fs : filesystem)
    (current_time : Z) (repo_name : string) (wf : workflow)
    (runs : option (list workflow_run)) (run : workflow_run) :
  fs_writable fs = true →
  repos ≠ [] →
  executed_set
    (_load_state (_monitor_workflows cfg workflows_config w clock repos st fs).1.2)
  = executed_set (_monitor_workflows cfg workflows_config w clock repos st fs).1.1 ∧
  (run_key repo_name wf run ∈
     executed_set (_monitor_workflows cfg workflows_config w clock repos st fs).1.1 →
   run ∉ _get_new_successful_runs cfg
           (_load_state (_monitor_workflows cfg workflows_config w clock repos st fs).1.2)
           current_time repo_name wf runs).
Proof.
  intros Hw Hrepos.
  assert (Hload : executed_set
            (_load_state (_monitor_workflows cfg workflows_config w clock repos st fs).1.2)
          = executed_set (_monitor_workflows cfg workflows_config w clock repos st fs).1.1).
  { unfold _monitor_workflows, _get_workflows_to_monitor.
    destruct repos as [|entry rest]; [done|]. simpl is_empty. cbv iota.
    destruct (monitor_repositories _ _ _ _ _) as [st' calls]. simpl.
    by apply load_after_save. }
  split; [done|]. intros Hkey Hrun.
  apply detected_not_executed in Hrun. rewrite Hload in Hrun. done.
Qed.

Lemma cycle_then_restart_witness :
  executed_set
    (_load_state (_monitor_workflows Scenario.cfg [] Scenario.w Fleet.clock
                    Fleet.repos empty_state Fleet.disk).1.2)
  = executed_set (_monitor_workflows Scenario.cfg [] Scenario.w Fleet.clock
                    Fleet.repos empty_state Fleet.disk).1.1 ∧
  (run_key "acme/api" Scenario.ci Scenario.run42 ∈
     executed_set (_monitor_workflows Scenario.cfg [] Scenario.w Fleet.clock
                     Fleet.repos empty_state Fleet.disk).1.1 →
   Scenario.run42 ∉
     _get_new_successful_runs Scenario.cfg
       (_load_state (_monitor_workflows Scenario.cfg [] Scenario.w Fleet.clock
                       Fleet.repos empty_state Fleet.disk).1.2)
       (Scenario.now + 60 * 1000000) "acme/api" Scenario.ci
       (Some [Scenario.run42])).
Proof.
  apply (cycle_then_restart Scenario.cfg [] Scenario.w Fleet.clock Fleet.repos
           empty_state Fleet.disk).
  - reflexivity.
  - discriminate.
Defined.

(** The cycle over the two repositories: one call, for the fresh
    successful run, and the state file holds its key. *)
Example fleet_cycle :
  _monitor_workflows Scenario.cfg [] Scenario.w Fleet.clock Fleet.repos
                     empty_state Fleet.disk
  = (StateData (Some []) (Some (ExecSet {[ "acme/api:67890:12345" ]})),
     FileSystem (Some (Document (StateDoc (Some []) (Some ["acme/api:67890:12345"]))))
                true,
     [Fleet.the_call]).
Proof. vm_compute. reflexivity. Qed.

(** ** Connecting repositories and choosing workflows *)

Section Connecting.

Variable get_repo : string → option github_repo.

Lemma dict_set_keys {A} (d : list (string * A)) (key : string) (value : A)
    (name : string) :
  name ∈ (dict_set d key value).*1 ↔ name ∈ d.*1 ∨ name = key.
Proof.
  induction d as [|[k v] rest IH]; simpl.
  - rewrite list_elem_of_singleton. split; [by right | by intros [?%elem_of_nil|?]].
  - destruct (String.eqb_spec k key) as [->|Hne]; simpl.
    + rewrite !elem_of_cons. tauto.
    + rewrite !elem_of_cons, IH. tauto.
Qed.

Lemma dict_set_consistent (repos : list (string * github_repo)) (key : string)
    (value : github_repo) :
  consistent get_repo repos → get_repo key = Some value →
  consistent get_repo (dict_set repos key value) ∧
  ∀ name repo, (name, repo) ∈ dict_set repos key value ↔
               (name, repo) ∈ repos ∨ (name = key ∧ repo = value).
Proof.
  intros [Hnodup Hget] Hkey.
  induction repos as [|[k v] rest IH]; simpl.
  - split; [split|].
    + simpl. apply NoDup_singleton.
    + intros name repo [= -> ->]%list_elem_of_singleton. done.
    + intros name repo. rewrite list_elem_of_singleton. split.
      * intros [= -> ->]. by right.
      * intros [?%elem_of_nil|[-> ->]]; done.
  - simpl in Hnodup. apply NoDup_cons in Hnodup as [Hk Hrest].
    assert (Hget' : ∀ name repo, (name, repo) ∈ rest → get_repo name = Some repo)
      by (intros name repo Hin; apply Hget; by right).
    destruct (IH Hrest Hget') as [[Hnodup' Hcons'] Hmem'].
    destruct (String.eqb_spec k key) as [->|Hne].
    + assert (v = value) as ->.
      { specialize (Hget key v ltac:(by left)). congruence. }
      split; [split|].
      * simpl. by apply NoDup_cons.
      * done.
      * intros name repo. rewrite elem_of_cons. split; [by left|].
        intros [?|[-> ->]]; [done | by left].
    + split; [split|].
      * simpl. apply NoDup_cons. split; [|done].
        rewrite dict_set_keys. intros [?|?]; done.
      * intros name repo [[= -> ->]|Hin]%elem_of_cons.
        -- apply Hget. by left.
        -- by apply Hcons'.
      * intros name repo. rewrite !elem_of_cons, Hmem'. tauto.
Qed.

Lemma connect_repositories_spec (repositories : list string)
    (repos : list (string * github_repo)) :
  consistent get_repo repos →
  consistent get_repo (connect_repositories get_repo repositories repos) ∧
  ∀ name repo,
    (name, repo) ∈ connect_repositories get_repo repositories repos ↔
    (name, repo) ∈ repos ∨ (name ∈ repositories ∧ get_repo name = Some repo).
Proof.
  revert repos. induction repositories as [|repo_name rest IH]; intros repos Hcons;
    simpl.
  - split; [done|]. intros name repo. split; [by left|].
    by intros [?|[?%elem_of_nil _]].
  - destruct (get_repo repo_name) as [found|] eqn:Hfound.
    + destruct (dict_set_consistent repos repo_name found Hcons Hfound)
        as [Hcons' Hmem'].
      destruct (IH _ Hcons') as [Hcons'' Hmem''].
      assert (connect_repositories get_repo rest (dict_set repos repo_name found)
              = match repo_workflows found with
                | Some _ => connect_repositories get_repo rest
                              (dict_set repos repo_name found)
                | None => connect_repositories get_repo rest
                            (dict_set repos repo_name found)
                end) as <- by by destruct (repo_workflows found).
      split; [done|]. intros name repo.
      rewrite Hmem'', Hmem', elem_of_cons. split.
      * intros [[?|[-> ->]]|[? ?]]; [by left| |]; right; auto.
      * intros [?|[[->|?] Hget]]; [by left; left| |by right].
        left. right. split; [done | congruence].
    + destruct (IH _ Hcons) as [Hcons' Hmem'].
      split; [done|]. intros name repo. rewrite Hmem', elem_of_cons. split.
      * intros [?|[? ?]]; [by left | right; auto].
      * intros [?|[[->|?] Hget]]; [by left | congruence | by right].
Qed.

End Connecting.

(** X12. When [_initialize_github_client] returns, the token is set and
    is not an unresolved placeholder, and the connected repositories are
    exactly the configured names for which [get_repo] succeeded, each
    once and at least one, whether or not the test of access to the
    workflows succeeded. It raises when no configured repository can be
    fetched. *)
Theorem initialize_connects (token : option string) (repositories : list string)
    (get_repo : string → option github_repo) :
  (∀ repos,
     _initialize_github_client token repositories get_repo = Returned repos →
     (∃ t, token = Some t ∧ t ≠ "" ∧ String.prefix "${" t = false) ∧
     repos ≠ [] ∧ NoDup repos.*1 ∧
     ∀ name repo, (name, repo) ∈ repos ↔
                  name ∈ repositories ∧ get_repo name = Some repo) ∧
  ((∀ name, name ∈ repositories → get_repo name = None) →
   _initialize_github_client token repositories get_repo
   = Raised (ExcOther "ValueError")).
Proof.
  assert (Hempty : consistent get_repo []).
  { split; [apply NoDup_nil_2 | by intros ?? ?%elem_of_nil]. }
  destruct (connect_repositories_spec get_repo repositories [] Hempty)
    as [[Hnodup _] Hmem].
  split.
  - intros repos. unfold _initialize_github_client.
    destruct token as [[|a t]|]; [done| |done].
    unfold is_placeholder_start.
    destruct (String.prefix "${" (String a t)) eqn:Hprefix; [done|].
    destruct (is_empty repositories); [done|].
    destruct (is_empty (connect_repositories get_repo repositories [])) eqn:Hnone;
      [done|].
    intros [= <-]. split; [by exists (String a t)|].
    split; [by destruct (connect_repositories get_repo repositories [])|].
    split; [done|]. intros name repo. rewrite Hmem. split.
    + by intros [?%elem_of_nil|?].
    + by right.
  - intros Hnone. unfold _initialize_github_client.
    destruct token as [[|a t]|]; [done| |done].
    destruct (is_placeholder_start (String a t)); [done|].
    destruct (is_empty repositories); [done|].
    destruct (connect_repositories get_repo repositories []) as [|[name repo] rest]
      eqn:Hrepos; [done|].
    assert (Hin : (name, repo) ∈ (name, repo) :: rest) by by left.
    apply Hmem in Hin as [?%elem_of_nil|[Hname Hget]]; [done|].
    rewrite (Hnone name Hname) in Hget. done.
Qed.

Lemma initialize_connects_witness :
  ((∃ t, Some "ghp_token" = Some t ∧ t ≠ "" ∧ String.prefix "${" t = false) ∧
   Fleet.repos ≠ [] ∧ NoDup Fleet.repos.*1 ∧
   ∀ name repo, (name, repo) ∈ Fleet.repos ↔
                name ∈ ["acme/api"; "gone/repo"; "acme/web"; "acme/api"] ∧
                Fleet.get_repo name = Some repo) ∧
  _initialize_github_client (Some "ghp_token") ["gone/repo"] Fleet.get_repo
  = Raised (ExcOther "ValueError").
Proof.
  split.
  - apply (proj1 (initialize_connects (Some "ghp_token")
                    ["acme/api"; "gone/repo"; "acme/web"; "acme/api"] Fleet.get_repo)).
    vm_compute. reflexivity.
  - apply (proj2 (initialize_connects (Some "ghp_token") ["gone/repo"] Fleet.get_repo)).
    intros name Hname. apply list_elem_of_singleton in Hname. subst name.
    vm_compute. reflexivity.
Defined.

Section WorkflowChoice.

Lemma split_aux_nonempty (sep : ascii) (acc s : string) :
  PyStr.split_aux sep acc s ≠ [].
Proof.
  revert acc. induction s as [|c s IH]; intros acc; simpl; [done|].
  destruct (Ascii.eqb c sep); [done | apply IH].
Qed.

Lemma last_split_aux (sep : ascii) (acc dir file : string) :
  free_of sep file = true →
  List.last (PyStr.split_aux sep acc (dir +:+ String sep file)) "" = file.
Proof.
  intros Hfile. revert acc. induction dir as [|c dir IH]; intros acc.
  - rewrite append_nil. simpl. rewrite Ascii.eqb_refl.
    by rewrite (split_aux_free sep "" file Hfile).
  - rewrite append_cons. simpl. destruct (Ascii.eqb c sep); [|apply IH].
    specialize (IH "").
    destruct (PyStr.split_aux sep "" (dir +:+ String sep file)) eqn:Hsplit;
      [by apply split_aux_nonempty in Hsplit | done].
Qed.

End WorkflowChoice.

(** X13. [_get_workflows_to_monitor] gives one entry per connected
    repository, in the same order. A workflow is monitored exactly when
    the repository lists it and either no workflow is configured or its
    name, its id written in decimal, or its file name is in the
    configured list; a repository whose listing fails monitors none. The
    file name is what follows the last slash of the path. *)
Theorem workflows_to_monitor_spec (workflows_config : list string)
    (repos : list (string * github_repo)) :
  (_get_workflows_to_monitor workflows_config repos).*1 = repos.*1 ∧
  (∀ repo_name workflows,
     (repo_name, workflows) ∈ _get_workflows_to_monitor workflows_config repos ↔
     ∃ repo, (repo_name, repo) ∈ repos ∧
             workflows = workflows_of workflows_config repo) ∧
  (∀ repo wi,
     wi ∈ workflows_of workflows_config repo ↔
     ∃ listed, repo_workflows repo = Some listed ∧ wi ∈ listed ∧
               (workflows_config = [] ∨
                wf_name (wi_workflow wi) ∈ workflows_config ∨
                pretty (wf_id (wi_workflow wi)) ∈ workflows_config ∨
                path_file_name (wi_path wi) ∈ workflows_config)) ∧
  (∀ dir file, free_of "/" file = true →
               path_file_name (dir +:+ "/" +:+ file) = file).
Proof.
  split; [|split; [|split]].
  - unfold _get_workflows_to_monitor. induction repos as [|[name repo] rest IH];
      simpl; [done | f_equal; exact IH].
  - intros repo_name workflows. split; [apply in_workflows_to_monitor|].
    intros (repo & Hin & ->). unfold _get_workflows_to_monitor.
    apply list_elem_of_fmap. by exists (repo_name, repo).
  - intros repo wi. unfold workflows_of.
    destruct (repo_workflows repo) as [listed|].
    + destruct workflows_config as [|name names] eqn:Hcfg; simpl is_empty; cbv iota.
      * split; [intros Hin; exists listed; by auto|].
        by intros (l & [= <-] & Hin & _).
      * rewrite list_elem_of_In, filter_In, <- list_elem_of_In.
        unfold workflow_selected.
        rewrite !orb_true_iff, !bool_decide_eq_true. split.
        -- intros [Hin Hsel]. exists listed. split; [done|]. split; [done|]. tauto.
        -- intros (l & [= <-] & Hin & [?|Hsel]); [done|]. split; [done | tauto].
    + split; [by intros ?%elem_of_nil | by intros (l & ? & _)].
  - intros dir file Hfile. unfold path_file_name, PyStr.split.
    rewrite append_cons, append_nil. by apply last_split_aux.
Qed.

Lemma workflows_to_monitor_spec_witness :
  path_file_name (".github/workflows" +:+ "/" +:+ "ci.yml") = "ci.yml".
Proof.
  apply (proj2 (proj2 (proj2 (workflows_to_monitor_spec [] [])))).
  vm_compute. reflexivity.
Defined.

(** ** Retention and the loaded state *)

(** X14. The retention pass only takes keys out, leaves
    [last_checked_runs] alone, and a second pass at the same time over
    the same repositories changes nothing more. *)
Theorem cleanup_shrinks_and_settles (repos : gmap string repo_handle)
    (current_time : Z) (st : state_data) :
  executed_set (_cleanup_old_executed_runs repos current_time st) ⊆ executed_set st ∧
  last_checked_runs (_cleanup_old_executed_runs repos current_time st)
  = last_checked_runs st ∧
  _cleanup_old_executed_runs repos current_time
    (_cleanup_old_executed_runs repos current_time st)
  = _cleanup_old_executed_runs repos current_time st.
Proof.
  destruct (executed_runs st) as [[s|l]|] eqn:Hst.
  - split; [|split].
    + intros key Hkey. apply (cleanup_set_spec repos current_time st s key Hst) in Hkey.
      unfold executed_set. rewrite Hst. by destruct Hkey.
    + unfold _cleanup_old_executed_runs. rewrite Hst. by case_bool_decide.
    + assert (Hkept : ∀ key,
                key ∈ executed_set (_cleanup_old_executed_runs repos current_time st) →
                to_remove repos current_time key = false).
      { intros key Hkey.
        by apply (cleanup_set_spec repos current_time st s key Hst) in Hkey as [_ ?]. }
      revert Hkept. generalize (_cleanup_old_executed_runs repos current_time st).
      intros st' Hkept. unfold _cleanup_old_executed_runs.
      destruct (executed_runs st') as [v|] eqn:Hst'; [|done].
      rewrite bool_decide_eq_true_2; [done|].
      apply set_eq. intros key. rewrite elem_of_filter. split; [|by intros ?%not_elem_of_empty].
      intros [Hrm Hin]. rewrite Hkept in Hrm; [done|].
      unfold executed_set. by rewrite Hst'.
  - unfold _cleanup_old_executed_runs. rewrite Hst.
    case_bool_decide; rewrite ?Hst; simpl; by case_bool_decide.
  - unfold _cleanup_old_executed_runs. by rewrite !Hst.
Qed.

(** X15. A list of an older state is put right by a save and a load, not
    by the retention pass. On a state that still holds its executed runs
    as a list the pass changes nothing at all, since taking a set from a
    list with [-=] raises; once that state has been saved to a writable
    file and loaded back it holds a set, and the pass keeps exactly the
    keys of the state that its loop does not select. *)
Theorem loaded_state_is_cleaned (repos : gmap string repo_handle) (current_time : Z)
    (st : state_data) (fs : filesystem) (l : list string) :
  fs_writable fs = true →
  (executed_runs st = Some (ExecList l) →
   _cleanup_old_executed_runs repos current_time st = st) ∧
  (∃ s, executed_runs (_load_state (_save_state st fs)) = Some (ExecSet s)) ∧
  (∀ key,
     key ∈ executed_set (_cleanup_old_executed_runs repos current_time
                           (_load_state (_save_state st fs))) ↔
     key ∈ executed_set st ∧ to_remove repos current_time key = false).
Proof.
  intros Hw. split; [|split].
  - intros Hst. unfold _cleanup_old_executed_runs. rewrite Hst. by case_bool_decide.
  - unfold _save_state, _load_state, state_to_save. rewrite Hw. simpl.
    destruct (executed_runs st) as [[s|l']|]; eauto.
  - assert (Hset : ∃ s, executed_runs (_load_state (_save_state st fs))
                        = Some (ExecSet s)).
    { unfold _save_state, _load_state, state_to_save. rewrite Hw. simpl.
      destruct (executed_runs st) as [[s|l']|]; eauto. }
    destruct Hset as [s Hs]. intros key.
    rewrite (cleanup_set_spec repos current_time _ s key Hs).
    assert (Hs' : executed_set (_load_state (_save_state st fs)) = s).
    { unfold executed_set. by rewrite Hs. }
    by rewrite <- (load_after_save st fs Hw), Hs'.
Qed.

Lemma loaded_state_is_cleaned_witness :
  _cleanup_old_executed_runs Scenario.repos Scenario.cleanup_time
    (StateData None (Some (ExecList ["acme/api:67890:12345"])))
  = StateData None (Some (ExecList ["acme/api:67890:12345"])) ∧
  executed_set (_cleanup_old_executed_runs Scenario.repos Scenario.cleanup_time
                  (_load_state (_save_state
                     (StateData None (Some (ExecList ["acme/api:67890:12345"])))
                     (FileSystem None true))))
  = ∅.
Proof.
  destruct (loaded_state_is_cleaned Scenario.repos Scenario.cleanup_time
              (StateData None (Some (ExecList ["acme/api:67890:12345"])))
              (FileSystem None true) ["acme/api:67890:12345"] eq_refl)
    as (Hlist & _ & Hloaded).
  split; [by apply Hlist|].
  apply set_eq. intros key. rewrite Hloaded. split.
  - intros [Hin Hkeep]. unfold executed_set in Hin.
    cbn [executed_runs as_set] in Hin. rewrite list_to_set_singleton in Hin.
    apply elem_of_singleton in Hin. subst key.
    vm_compute in Hkeep. discriminate Hkeep.
  - intros Hin. exfalso. exact (not_elem_of_empty (C:=gset string) key Hin).
Defined.

(** ** Environment substitution in the configuration *)

Section YamlInduction.

Variable P : yaml → Prop.
Hypothesis Hdict : ∀ items, Forall (fun entry => P entry.2) items → P (YDict items).
Hypothesis Hlist : ∀ items, Forall P items → P (YList items).
Hypothesis Hstr : ∀ s, P (YStr s).
Hypothesis Hscalar : ∀ text, P (YScalar text).

(** Induction on a configuration value, with the property at hand for
    every value held in a mapping or a sequence. *)
Lemma yaml_induction (obj : yaml) : P obj.
Proof.
  revert obj. fix IH 1. intros [items|items|s|text].
  - apply Hdict. induction items as [|[key value] rest IHitems].
    + constructor.
    + constructor; [apply IH | exact IHitems].
  - apply Hlist. induction items as [|value rest IHitems].
    + constructor.
    + constructor; [apply IH | exact IHitems].
  - apply Hstr.
  - apply Hscalar.
Qed.

End YamlInduction.

(** X16. Substitution leaves alone what it cannot resolve: when none of
    the variables a configuration asks for is set in the environment,
    [_substitute_env_vars] gives the configuration back unchanged. *)
Theorem substitute_unset (environ : gmap string string) (obj : yaml) :
  (∀ env_var, env_var ∈ referenced obj → environ !! env_var = None) →
  _substitute_env_vars environ obj = obj.
Proof.
  induction obj as [items IH|items IH|s|text] using yaml_induction; simpl;
    intros Hunset.
  - f_equal. induction IH as [|[key value] rest Hvalue _ IHrest]; simpl; [done|].
    simpl in Hvalue. rewrite Hvalue, IHrest; [done| |].
    + intros v Hv. apply Hunset. simpl. apply elem_of_app. by right.
    + intros v Hv. apply Hunset. simpl. apply elem_of_app. by left.
  - f_equal. induction IH as [|value rest Hvalue _ IHrest]; simpl; [done|].
    rewrite Hvalue, IHrest; [done| |].
    + intros v Hv. apply Hunset. simpl. apply elem_of_app. by right.
    + intros v Hv. apply Hunset. simpl. apply elem_of_app. by left.
  - destruct (placeholder s) as [env_var|]; [|done].
    rewrite (Hunset env_var); [done|]. simpl. by left.
  - done.
Qed.

Lemma substitute_unset_witness :
  _substitute_env_vars {[ "HOME" := "/root" ]}
    (YDict [("github", YDict [("token", YStr "${GITHUB_TOKEN}")]);
            ("repositories", YList [YStr "acme/api"])])
  = YDict [("github", YDict [("token", YStr "${GITHUB_TOKEN}")]);
           ("repositories", YList [YStr "acme/api"])].
Proof.
  apply substitute_unset. intros env_var Hin.
  vm_compute in Hin. apply list_elem_of_singleton in Hin. subst env_var.
  vm_compute. reflexivity.
Defined.

(** X17. Substitution is done in one pass: when no value of the
    environment is itself a placeholder, substituting a second time
    changes nothing. *)
Theorem substitute_settles (environ : gmap string string) (obj : yaml) :
  (∀ env_var value, environ !! env_var = Some value → placeholder value = None) →
  _substitute_env_vars environ (_substitute_env_vars environ obj)
  = _substitute_env_vars environ obj.
Proof.
  intros Hplain.
  induction obj as [items IH|items IH|s|text] using yaml_induction; simpl.
  - f_equal. induction IH as [|[key value] rest Hvalue _ IHrest]; simpl; [done|].
    simpl in Hvalue. by rewrite Hvalue, IHrest.
  - f_equal. induction IH as [|value rest Hvalue _ IHrest]; simpl; [done|].
    by rewrite Hvalue, IHrest.
  - destruct (placeholder s) as [env_var|] eqn:Hs; simpl.
    + destruct (environ !! env_var) as [value|] eqn:Hvar; simpl.
      * by rewrite (Hplain env_var value Hvar).
      * by rewrite Hs, Hvar.
    + by rewrite Hs.
  - done.
Qed.

Lemma substitute_settles_witness :
  _substitute_env_vars {[ "GITHUB_TOKEN" := "ghp_token" ]}
    (_substitute_env_vars {[ "GITHUB_TOKEN" := "ghp_token" ]}
       (YDict [("token", YStr "${GITHUB_TOKEN}"); ("url", YStr "${API_URL}")]))
  = _substitute_env_vars {[ "GITHUB_TOKEN" := "ghp_token" ]}
      (YDict [("token", YStr "${GITHUB_TOKEN}"); ("url", YStr "${API_URL}")]).
Proof.
  apply substitute_settles. intros env_var value Hvar.
  apply lookup_singleton_Some in Hvar as [_ <-]. vm_compute. reflexivity.
Defined.

(** One substitution on the example: the token is resolved, the
    placeholder of the unset variable stays, and a placeholder inside a
    longer text is not touched. *)
Example substitute_example :
  _substitute_env_vars {[ "GITHUB_TOKEN" := "ghp_token" ]}
    (YDict [("token", YStr "${GITHUB_TOKEN}"); ("url", YStr "${API_URL}");
            ("greeting", YStr "token is ${GITHUB_TOKEN}"); ("port", YScalar "8080")])
  = YDict [("token", YStr "ghp_token"); ("url", YStr "${API_URL}");
           ("greeting", YStr "token is ${GITHUB_TOKEN}"); ("port", YScalar "8080")].
Proof. vm_compute. reflexivity. Qed.

(** X18. A token left unresolved stops the start-up: when the configured
    token is a placeholder for a variable that is not set, substitution
    leaves the placeholder in place and [_initialize_github_client]
    raises instead of connecting with it. *)
Theorem unresolved_token_is_refused (environ : gmap string string)
    (token env_var : string) (repositories : list string)
    (get_repo : string → option github_repo) :
  placeholder token = Some env_var →
  environ !! env_var = None →
  _substitute_env_vars environ (YStr token) = YStr token ∧
  _initialize_github_client (Some token) repositories get_repo
  = Raised (ExcOther "ValueError").
Proof.
  intros Htoken Hunset. split.
  - simpl. by rewrite Htoken, Hunset.
  - unfold placeholder in Htoken.
    destruct (String.prefix "${" token) eqn:Hprefix; [|done].
    unfold _initialize_github_client, is_placeholder_start.
    destruct token as [|a t]; [done|]. by rewrite Hprefix.
Qed.

Lemma unresolved_token_is_refused_witness :
  _substitute_env_vars ∅ (YStr "${GITHUB_TOKEN}") = YStr "${GITHUB_TOKEN}" ∧
  _initialize_github_client (Some "${GITHUB_TOKEN}") ["acme/api"] Fleet.get_repo
  = Raised (ExcOther "ValueError").
Proof.
  apply (unresolved_token_is_refused ∅ "${GITHUB_TOKEN}" "GITHUB_TOKEN"
           ["acme/api"] Fleet.get_repo).
  - vm_compute. reflexivity.
  - reflexivity.
Defined.

(** ** The environment of a command *)

(** X19. The environment handed to the commands of a run holds the nine
    run variables with the values of the run, taking the place of any
    process variable of the same name, and every other variable of the
    process environment as it is. *)
Theorem command_environment_lookup (w : world) (repo_name : string)
    (wf : workflow) (run : workflow_run) :
  _prepare_command_environment w repo_name wf run !! "REPO_NAME" = Some repo_name ∧
  _prepare_command_environment w repo_name wf run !! "WORKFLOW_NAME"
  = Some (wf_name wf) ∧
  _prepare_command_environment w repo_name wf run !! "WORKFLOW_ID"
  = Some (pretty (wf_id wf)) ∧
  _prepare_command_environment w repo_name wf run !! "BRANCH_NAME"
  = Some (or_unknown (head_branch run)) ∧
  _prepare_command_environment w repo_name wf run !! "RUN_NUMBER"
  = Some (pretty (run_number run)) ∧
  _prepare_command_environment w repo_name wf run !! "RUN_ID"
  = Some (pretty (run_id run)) ∧
  _prepare_command_environment w repo_name wf run !! "COMMIT_SHA"
  = Some (or_unknown (head_sha run)) ∧
  _prepare_command_environment w repo_name wf run !! "COMMIT_MESSAGE"
  = Some (or_unknown (display_title run)) ∧
  _prepare_command_environment w repo_name wf run !! "COMMIT_AUTHOR"
  = Some (commit_author w repo_name run) ∧
  (∀ name, name ∉ run_variables →
           _prepare_command_environment w repo_name wf run !! name
           = os_environ w !! name).
Proof.
  unfold _prepare_command_environment.
  repeat split; try by simplify_map_eq.
  intros name Hname. unfold run_variables in Hname.
  repeat (rewrite lookup_insert_ne;
          [|intros <-; apply Hname; repeat constructor]).
  done.
Qed.

Lemma command_environment_lookup_witness :
  _prepare_command_environment
    (World {[ "PATH" := "/usr/bin"; "RUN_ID" := "stale" ]} "/"
           (fun _ _ => "unknown") Scenario.shell)
    "acme/api" Scenario.ci Scenario.run42 !! "PATH"
  = Some "/usr/bin".
Proof.
  rewrite (proj2 (proj2 (proj2 (proj2 (proj2 (proj2 (proj2 (proj2 (proj2
             (command_environment_lookup
                (World {[ "PATH" := "/usr/bin"; "RUN_ID" := "stale" ]} "/"
                       (fun _ _ => "unknown") Scenario.shell)
                "acme/api" Scenario.ci Scenario.run42))))))))) "PATH").
  - vm_compute. reflexivity.
  - vm_compute. intros Hin.
    repeat (apply elem_of_cons in Hin as [Heq|Hin]; [discriminate Heq|]).
    by apply elem_of_nil in Hin.
Defined.

(** ** Default timeouts *)

Lemma lower_ascii_idempotent (c : ascii) :
  PyStr.lower_ascii (PyStr.lower_ascii c) = PyStr.lower_ascii c.
Proof. destruct c as [[] [] [] [] [] [] [] []]; by vm_compute. Qed.

Lemma lower_idempotent (s : string) : PyStr.lower (PyStr.lower s) = PyStr.lower s.
Proof.
  induction s as [|c s IH]; simpl; [done|]. by rewrite lower_ascii_idempotent, IH.
Qed.

(** X20. The default timeout does not depend on the case of the letters
    of a command and is always one of 60, 120, 180 and 300 seconds. *)
Theorem default_timeout_case_and_range (command : string) :
  _get_default_timeout (PyStr.lower command) = _get_default_timeout command ∧
  _get_default_timeout command ∈ [60; 120; 180; 300].
Proof.
  split.
  - unfold _get_default_timeout. by rewrite lower_idempotent.
  - unfold _get_default_timeout.
    repeat (case_match; [repeat constructor|]). repeat constructor.
Qed.

(** ** The scan of one repository *)

(** X21. The scan of one repository reports [True], and every runner
    call it makes is for a run of that repository: a run that one of the
    given workflows lists, concluded with success and whose key was not
    in the executed set when the scan began. *)
Theorem single_repository_scan (cfg : config) (w : world)
    (clock : string → workflow → Z) (st : state_data) (repo_name : string)
    (workflows : list workflow_info) :
  (_monitor_single_repository cfg w clock st repo_name workflows).1.1 = true ∧
  ∀ c, c ∈ (_monitor_single_repository cfg w clock st repo_name workflows).2 →
       ∃ wi runs run,
         wi ∈ workflows ∧ wi_runs wi = Some runs ∧ run ∈ runs ∧
         inv_run_key c = run_key repo_name (wi_workflow wi) run ∧
         conclusion run = Some "success" ∧
         (run_key repo_name (wi_workflow wi) run ∉ executed_set st).
Proof.
  unfold _monitor_single_repository.
  pose proof (monitor_repository_calls cfg w clock st repo_name workflows) as Hcalls.
  destruct (monitor_repository cfg w clock st repo_name workflows) as [st' calls].
  simpl in *. split; [done|]. intros c Hc.
  destruct (Hcalls c Hc) as (wi & st_i & run & Hwi & Hsub & Hrun & Hk).
  destruct (wi_runs wi) as [runs|] eqn:Hruns; simpl in Hrun;
    [|by apply elem_of_nil in Hrun].
  apply list_elem_of_filter in Hrun as [Hnew Hrun].
  apply list_elem_of_filter in Hrun as [Hok Hrun].
  apply is_new_run_spec in Hnew as (Hfresh & _ & _).
  exists wi, runs, run. repeat split; try done.
  intros Hin. apply Hfresh, Hsub, Hin.
Qed.

Lemma single_repository_scan_witness :
  ∃ wi runs run,
    wi ∈ [Fleet.ci_info; Fleet.nightly_info] ∧ wi_runs wi = Some runs ∧ run ∈ runs ∧
    inv_run_key Fleet.the_call = run_key "acme/api" (wi_workflow wi) run ∧
    conclusion run = Some "success" ∧
    (run_key "acme/api" (wi_workflow wi) run ∉ executed_set empty_state).
Proof.
  apply (proj2 (single_repository_scan Scenario.cfg Scenario.w Fleet.clock
                  empty_state "acme/api" [Fleet.ci_info; Fleet.nightly_info])
           Fleet.the_call).
  vm_compute. left.
Defined.
